(** * Pharaos Runner: the game engine of [src/app/page.tsx]

    The component [PharaohRunner] keeps its engine state in React state
    cells and refs, mutates it from input handlers ([startGame],
    [togglePause], [jump], [setDuck]) and from the animation-frame callback
    [gameLoop], and runs two effects after a render: one that resets the
    loop's local counters and one that tracks the high score.

    The embedding is an explicit state record, one function per handler
    and effect, and a [dispatch] function that runs a handler followed by
    the effects whose dependencies changed.

    Numbers.  Pixel quantities ([playerY], [velocity], obstacle [x], the
    speed) are JavaScript numbers; they are modelled as rationals [Q] with
    the source's decimal constants, i.e. with exact arithmetic in place of
    binary64 rounding.  Counters ([score], [frameCount]) only ever hold
    integers and are modelled as [Z].  The high score is read with
    [parseInt] and may therefore be [NaN]; it has its own type [number].
    A rational written into the state is put in lowest terms with [Qred],
    which does not change its value ([Qred_correct]) and keeps long runs
    of the model executable. *)

From Stdlib Require Import ZArith QArith Qminmax Qround Lqa Lia Floats.
From Stdlib Require Import Bool List Sorted String Ascii DecimalString DecimalPos.
Import ListNotations.

Local Open Scope Z_scope.
Local Open Scope Q_scope.

(** ** JavaScript values used by the component *)

(** Strict comparison [a < b] on pixel quantities. *)
Definition Qltb (a b : Q) : bool :=
  match a ?= b with Lt => true | _ => false end.

(** Truncation toward zero and the remainder operator [a % b]. *)
Definition Qtrunc (q : Q) : Z := Z.quot (Qnum q) (Zpos (Qden q)).

Definition Qrem (a b : Q) : Q := a - b * inject_Z (Qtrunc (a / b)).

(** An integer-valued JavaScript number, or [NaN]. *)
Inductive number : Type :=
| Num (z : Z)
| NaN.

(** [a > b]; every comparison with [NaN] is false. *)
Definition gt (a b : number) : bool :=
  match a, b with
  | Num m, Num n => (n <? m)%Z
  | _, _ => false
  end.

Module JS.

Local Open Scope char_scope.

(** White space skipped by [parseInt] (the ASCII part of it). *)
Definition isWhite (c : ascii) : bool :=
  let n := N_of_ascii c in
  ((n =? 32) || (n =? 9) || (n =? 10) || (n =? 11) || (n =? 12) || (n =? 13))%N.

Fixpoint trimStart (s : string) : string :=
  match s with
  | String c r => if isWhite c then trimStart r else s
  | EmptyString => s
  end.

(** Value of a character as a digit: 0-9, then a-z or A-Z from 10 on. *)
Definition digitVal (c : ascii) : option Z :=
  let n := Z.of_N (N_of_ascii c) in
  if ((48 <=? n) && (n <=? 57))%Z then Some (n - 48)%Z
  else if ((97 <=? n) && (n <=? 122))%Z then Some (n - 87)%Z
  else if ((65 <=? n) && (n <=? 90))%Z then Some (n - 55)%Z
  else None.

(** Longest prefix of digits of the radix; [acc] is the value read so
    far, [None] while no digit has been read. *)
Fixpoint digits (radix : Z) (acc : option Z) (s : string) : option Z :=
  match s with
  | EmptyString => acc
  | String c r =>
      match digitVal c with
      | Some d =>
          if (d <? radix)%Z
          then digits radix
                 (Some (match acc with Some a => a * radix + d | None => d end)%Z) r
          else acc
      | None => acc
      end
  end.

(** [parseInt(s)] with no radix argument: leading white space, an
    optional sign, an optional [0x] prefix selecting radix 16, then the
    longest run of digits; [NaN] when there is no digit.  The result is
    the integer read, which is JavaScript's result when its absolute
    value is at most 2^53; a longer run of digits is rounded to binary64
    there.  Strings are ASCII: only ASCII white space is skipped. *)
Definition parseInt (s : string) : number :=
  let s := trimStart s in
  let '(neg, s) :=
    match s with
    | String "-" r => (true, r)
    | String "+" r => (false, r)
    | _ => (false, s)
    end in
  let '(radix, s) :=
    match s with
    | String "0" (String "x" r) => (16%Z, r)
    | String "0" (String "X" r) => (16%Z, r)
    | _ => (10%Z, s)
    end in
  match digits radix None s with
  | Some n => Num (if neg then - n else n)%Z
  | None => NaN
  end.

(** [n.toString()] for an integer: plain decimal digits.  JavaScript
    prints this for every integer number of absolute value below 1e21
    and an exponent form beyond; the numbers of the component are exact
    integers up to 2^53. *)
Definition toString (n : Z) : string := NilZero.string_of_int (Z.to_int n).

(** Truthiness of the result of [localStorage.getItem]: [null] and the
    empty string are falsy. *)
Definition truthy (v : option string) : bool :=
  match v with
  | Some (String _ _) => true
  | _ => false
  end.

End JS.

(** ** Data model *)

Inductive ObstacleType : Type := rock | temple | scorpion | snake | statue.

Record Obstacle : Type := mkObstacle { x : Q; type : ObstacleType }.

(** The engine state.  [gameStarted], [gameOver] and [paused] exist twice
    in the component, as a state cell and as a ref written by the same
    statements; the record holds one copy.  [frameCount],
    [lastObstacleFrame] and [obstacleCount] are the locals of the game-loop
    effect.  [storage] is the value stored under the key
    ["pharaosHighScore"] in [localStorage].  The handle of the pending
    animation frame is scheduling and is not part of the record: a tick is
    the event [Frame] below. *)
Record State : Type := mkState {
  gameStarted : bool;
  gameOver : bool;
  paused : bool;
  score : Z;
  highScore : number;
  achievedNewHighScore : bool;
  bgOffset : Q;
  playerY : Q;
  velocity : Q;
  isDucking : bool;
  obstacles : list Obstacle;
  lastHighScore : number;
  frameCount : Z;
  lastObstacleFrame : Z;
  obstacleCount : Z;
  storage : option string
}.

(** The component as mounted, before the load effect, over a given
    content of the store. *)
Definition initial (stored : option string) : State :=
  {| gameStarted := false; gameOver := false; paused := false;
     score := 0; highScore := Num 0; achievedNewHighScore := false;
     bgOffset := 0;
     playerY := 0; velocity := 0; isDucking := false; obstacles := [];
     lastHighScore := Num 0;
     frameCount := 0; lastObstacleFrame := -100; obstacleCount := 0;
     storage := stored |}.

(** ** The frame: physics, difficulty, spawning, motion, collision *)

(** Gravity, then velocity, then the ground clamp.  The arithmetic is
    exact; the source computes the same two operations in binary64
    ([integrate64] below), where the states of a jump differ from the
    exact ones by about 1e-13.  Properties that compare a height or a
    velocity with a constant are stated with a margin that covers this. *)
Definition integrate (playerY velocity : Q) : Q * Q :=
  let velocity := Qred (velocity - 0.7) in
  let playerY := Qred (playerY + velocity) in
  if Qle_bool playerY 0 then (0, 0) else (playerY, velocity).

Definition currentScore (frameCount : Z) : Z := (frameCount / 60)%Z.

Definition baseSpeed (frameCount : Z) : Q :=
  3.5 + Qmin (inject_Z (currentScore frameCount) * 0.1) 6.

Definition spawnInterval (frameCount : Z) : Z :=
  Z.max (140 - currentScore frameCount * 2) 65.

(** The category drawn from one value of [Math.random()]. *)
Definition pickType (rand : Q) : ObstacleType :=
  if Qltb rand 0.3 then rock
  else if Qltb rand 0.5 then scorpion
  else if Qltb rand 0.7 then temple
  else if Qltb rand 0.85 then statue
  else snake.

(** The spawner's guard. *)
Definition spawns (frameCount lastObstacleFrame : Z) : bool :=
  (spawnInterval frameCount <? frameCount - lastObstacleFrame)%Z.

(** The spawner on the obstacle list and the two counters it owns. *)
Definition spawn (frameCount : Z) (rand : Q)
    (st : list Obstacle * Z * Z) : list Obstacle * Z * Z :=
  let '(obstacles, lastObstacleFrame, obstacleCount) := st in
  if spawns frameCount lastObstacleFrame
  then (obstacles ++ [ {| x := 800; type := pickType rand |} ],
        frameCount, (obstacleCount + 1)%Z)
  else st.

(** [map] then [filter] of the motion updater. *)
Definition moveObstacles (baseSpeed : Q) (obstacles : list Obstacle)
    : list Obstacle :=
  filter (fun obs => Qltb (-100) (x obs))
    (map (fun obs => {| x := Qred (x obs - baseSpeed); type := type obs |})
       obstacles).

Definition playerX : Q := 100.
Definition playerWidth : Q := 35.
Definition obsWidth : Q := 35.

Definition playerHeight (ducking : bool) : Q := if ducking then 20 else 45.

Definition isHigh (t : ObstacleType) : bool :=
  match t with
  | temple | statue | snake => true
  | rock | scorpion => false
  end.

Definition obsBottom (t : ObstacleType) : Q := if isHigh t then 35 else 0.
Definition obsHeight (t : ObstacleType) : Q := if isHigh t then 80 else 40.

Definition hitX (obs : Obstacle) : bool :=
  Qltb (x obs + 3) (playerX + playerWidth - 3)
  && Qltb (playerX + 3) (x obs + obsWidth - 3).

Definition hitY (playerBottom : Q) (ducking : bool) (obs : Obstacle) : bool :=
  let playerTop := playerBottom + playerHeight ducking in
  let obsTop := obsBottom (type obs) + obsHeight (type obs) in
  Qltb (playerBottom + 2) (obsTop - 2)
  && Qltb (obsBottom (type obs) + 2) (playerTop - 2).

Definition hits (playerBottom : Q) (ducking : bool) (obs : Obstacle) : bool :=
  hitX obs && hitY playerBottom ducking obs.

Definition hasCollision (playerBottom : Q) (ducking : bool)
    (obstacles : list Obstacle) : bool :=
  existsb (hits playerBottom ducking) obstacles.

(** One invocation of the animation-frame callback; [rand] is what
    [Math.random()] returns if the spawner calls it. *)
Definition gameLoop (s : State) (rand : Q) : State :=
  if paused s then s
  else
    let frameCount := (frameCount s + 1)%Z in
    let '(playerY, velocity) := integrate (playerY s) (velocity s) in
    let baseSpeed := baseSpeed frameCount in
    let '(spawned, lastObstacleFrame, obstacleCount) :=
      spawn frameCount rand
        (obstacles s, lastObstacleFrame s, obstacleCount s) in
    let obstacles := moveObstacles baseSpeed spawned in
    {| gameStarted := gameStarted s;
       gameOver :=
         if hasCollision playerY (isDucking s) obstacles then true
         else gameOver s;
       paused := paused s;
       score := (score s + 1)%Z;
       highScore := highScore s;
       achievedNewHighScore := achievedNewHighScore s;
       bgOffset := Qred (Qrem (bgOffset s + baseSpeed * 0.3) 800);
       playerY := playerY;
       velocity := velocity;
       isDucking := isDucking s;
       obstacles := obstacles;
       lastHighScore := lastHighScore s;
       frameCount := frameCount;
       lastObstacleFrame := lastObstacleFrame;
       obstacleCount := obstacleCount;
       storage := storage s |}.

(** ** Input handlers *)

Definition startGame (s : State) : State :=
  {| gameStarted := true;
     gameOver := false;
     paused := false;
     score := 0;
     highScore := highScore s;
     achievedNewHighScore := false;
     bgOffset := bgOffset s;
     playerY := 0;
     velocity := 0;
     isDucking := false;
     obstacles := [];
     lastHighScore := lastHighScore s;
     frameCount := frameCount s;
     lastObstacleFrame := lastObstacleFrame s;
     obstacleCount := obstacleCount s;
     storage := storage s |}.

Definition set_paused (b : bool) (s : State) : State :=
  mkState (gameStarted s) (gameOver s) b (score s) (highScore s)
    (achievedNewHighScore s) (bgOffset s) (playerY s) (velocity s)
    (isDucking s) (obstacles s) (lastHighScore s) (frameCount s)
    (lastObstacleFrame s) (obstacleCount s) (storage s).

Definition set_velocity (v : Q) (s : State) : State :=
  mkState (gameStarted s) (gameOver s) (paused s) (score s) (highScore s)
    (achievedNewHighScore s) (bgOffset s) (playerY s) v
    (isDucking s) (obstacles s) (lastHighScore s) (frameCount s)
    (lastObstacleFrame s) (obstacleCount s) (storage s).

Definition set_isDucking (b : bool) (s : State) : State :=
  mkState (gameStarted s) (gameOver s) (paused s) (score s) (highScore s)
    (achievedNewHighScore s) (bgOffset s) (playerY s) (velocity s)
    b (obstacles s) (lastHighScore s) (frameCount s)
    (lastObstacleFrame s) (obstacleCount s) (storage s).

Definition set_storage (v : option string) (s : State) : State :=
  mkState (gameStarted s) (gameOver s) (paused s) (score s) (highScore s)
    (achievedNewHighScore s) (bgOffset s) (playerY s) (velocity s)
    (isDucking s) (obstacles s) (lastHighScore s) (frameCount s)
    (lastObstacleFrame s) (obstacleCount s) v.

Definition togglePause (s : State) : State :=
  if negb (gameStarted s) || gameOver s then s
  else set_paused (negb (paused s)) s.

Definition jump (s : State) : State :=
  if negb (gameStarted s) && negb (gameOver s) then startGame s
  else if gameOver s || isDucking s then s
  else if Qeq_bool (playerY s) 0 then set_velocity 13 s
  else s.

Definition setDuck (ducking : bool) (s : State) : State :=
  if negb (gameStarted s) || gameOver s then s
  else set_isDucking ducking s.

(** ** Effects *)

(** The mount effect that reads the stored high score. *)
Definition loadHighScore (s : State) : State :=
  match storage s with
  | Some saved =>
      if JS.truthy (Some saved) then
        let savedScore := JS.parseInt saved in
        mkState (gameStarted s) (gameOver s) (paused s) (score s) savedScore
          (achievedNewHighScore s) (bgOffset s) (playerY s) (velocity s)
          (isDucking s) (obstacles s) savedScore (frameCount s)
          (lastObstacleFrame s) (obstacleCount s) (storage s)
      else s
  | None => s
  end.

(** Guard of the first block of the high-score effect. *)
Definition newHighScore (s : State) : bool :=
  gameStarted s && gt (Num (score s)) (lastHighScore s) && (100 <? score s)%Z.

(** The high-score effect.  Its second block compares with the
    [highScore] of the render the effect belongs to, that is, with the
    value before the first block's [setHighScore]. *)
Definition trackHighScore (s : State) : State :=
  let s1 :=
    if newHighScore s then
      mkState (gameStarted s) (gameOver s) (paused s) (score s)
        (Num (score s)) true (bgOffset s) (playerY s) (velocity s)
        (isDucking s) (obstacles s) (Num (score s)) (frameCount s)
        (lastObstacleFrame s) (obstacleCount s)
        (Some (JS.toString (score s)))
    else s in
  if (0 <? score s)%Z && gt (Num (score s)) (highScore s)
  then set_storage (Some (JS.toString (score s))) s1
  else s1.

(** Set-up of the game-loop effect: fresh locals when a run is active. *)
Definition gameLoopEffect (s : State) : State :=
  if negb (gameStarted s) || gameOver s then s
  else
    mkState (gameStarted s) (gameOver s) (paused s) (score s) (highScore s)
      (achievedNewHighScore s) (bgOffset s) (playerY s) (velocity s)
      (isDucking s) (obstacles s) (lastHighScore s) 0 (-100) 0 (storage s).

(** Dependency comparison, as [Object.is]: [NaN] equals itself. *)
Definition number_eqb (a b : number) : bool :=
  match a, b with
  | Num m, Num n => (m =? n)%Z
  | NaN, NaN => true
  | _, _ => false
  end.

Definition trackDepsChanged (old new : State) : bool :=
  negb ((score old =? score new)%Z
        && Bool.eqb (gameStarted old) (gameStarted new)
        && number_eqb (highScore old) (highScore new)).

Definition loopDepsChanged (old new : State) : bool :=
  negb (Bool.eqb (gameStarted old) (gameStarted new)
        && Bool.eqb (gameOver old) (gameOver new)).

(** The states in which the high-score effect runs after a handler took
    the component from [old] to [new]: once if a dependency changed, and
    once more if that run changed [highScore]. *)
Definition trackRuns (old new : State) : list State :=
  if trackDepsChanged old new then
    let s1 := trackHighScore new in
    if number_eqb (highScore new) (highScore s1) then [new] else [new; s1]
  else [].

(** The effects that follow a handler. *)
Definition effects (old new : State) : State :=
  let s1 := fold_left (fun _ s => trackHighScore s) (trackRuns old new) new in
  if loopDepsChanged old new then gameLoopEffect s1 else s1.

(** Mounting the component over a store: the effects run in the order
    they are declared, the load effect before the high-score effect, and
    once more for the dependencies the load effect changed.  At mount the
    score is 0, so the high-score effect does nothing whichever value of
    [highScore] it compares with. *)
Definition mount (stored : option string) : State :=
  let s0 := initial stored in
  let s1 := trackHighScore (loadHighScore s0) in
  effects s0 s1.

(** ** Events and runs *)

Inductive event : Type :=
| StartGame
| Jump
| SetDuck (ducking : bool)
| TogglePause
| Frame (rand : Q).

(** The animation-frame callback only exists while the game-loop effect
    is set up, that is, while the game is started and not over. *)
Definition handle (s : State) (e : event) : State :=
  match e with
  | StartGame => startGame s
  | Jump => jump s
  | SetDuck ducking => setDuck ducking s
  | TogglePause => togglePause s
  | Frame rand =>
      if gameStarted s && negb (gameOver s) then gameLoop s rand else s
  end.

Definition dispatch (s : State) (e : event) : State :=
  effects s (handle s e).

Definition run (s : State) (evs : list event) : State :=
  fold_left dispatch evs s.

(** Number of times the first block of the high-score effect executes,
    i.e. of calls [setAchievedNewHighScore(true)], while [e] is
    dispatched from [s], and over a run. *)
Definition newHighScoreCalls (s : State) (e : event) : nat :=
  List.length (filter newHighScore (trackRuns s (handle s e))).

Fixpoint newHighScoreCallsRun (s : State) (evs : list event) : nat :=
  match evs with
  | [] => 0
  | e :: evs => newHighScoreCalls s e + newHighScoreCallsRun (dispatch s e) evs
  end.

(** Number of events of a run at which the [achievedNewHighScore] flag
    goes from false to true. *)
Definition raises (s : State) (e : event) : bool :=
  negb (achievedNewHighScore s) && achievedNewHighScore (dispatch s e).

Fixpoint raisesRun (s : State) (evs : list event) : nat :=
  match evs with
  | [] => 0
  | e :: evs => (if raises s e then 1 else 0) + raisesRun (dispatch s e) evs
  end.

(** Number of ticks of a run that are processed: the game is started, not
    over and not paused when they arrive. *)
Definition processed (s : State) (e : event) : bool :=
  match e with
  | Frame _ => gameStarted s && negb (gameOver s) && negb (paused s)
  | _ => false
  end.

Fixpoint processedFrames (s : State) (evs : list event) : nat :=
  match evs with
  | [] => 0
  | e :: evs => (if processed s e then 1 else 0) + processedFrames (dispatch s e) evs
  end.

(** ** Vocabulary of the properties *)

(** The fields an effect never writes. *)
Definition sameRun (a b : State) : Prop :=
  gameStarted a = gameStarted b /\ gameOver a = gameOver b /\
  paused a = paused b /\ score a = score b /\ bgOffset a = bgOffset b /\
  playerY a = playerY b /\ velocity a = velocity b /\
  isDucking a = isDucking b /\ obstacles a = obstacles b.

(** The fields of the high-score bookkeeping. *)
Definition sameHigh (a b : State) : Prop :=
  highScore a = highScore b /\ lastHighScore a = lastHighScore b /\
  achievedNewHighScore a = achievedNewHighScore b /\ storage a = storage b.

(** [Subseq k l]: [k] is [l] with some elements left out, the others in
    the order they have in [l]. *)
Inductive Subseq {A : Type} : list A -> list A -> Prop :=
| Subseq_nil : Subseq [] []
| Subseq_skip (a : A) (k l : list A) : Subseq k l -> Subseq k (a :: l)
| Subseq_keep (a : A) (k l : list A) : Subseq k l -> Subseq (a :: k) (a :: l).

(** An obstacle after the motion step of one that was at [x o]. *)
Definition movedFrom (v : Q) (o' o : Obstacle) : Prop :=
  x o' == x o - v /\ type o' = type o.

(** No obstacle of the live list is at or beyond the cutoff -100. *)
Definition onScreen (obs : list Obstacle) : Prop :=
  Forall (fun o => -100 < x o) obs.

(** A run made of pause toggles and of ticks that all arrive while the
    engine is paused. *)
Fixpoint pausedTicksOnly (s : State) (evs : list event) : bool :=
  match evs with
  | [] => true
  | TogglePause :: evs => pausedTicksOnly (dispatch s TogglePause) evs
  | Frame rand :: evs => paused s && pausedTicksOnly (dispatch s (Frame rand)) evs
  | _ :: _ => false
  end.

(** Number of pause toggles of a run. *)
Fixpoint toggles (evs : list event) : nat :=
  match evs with
  | [] => 0
  | TogglePause :: evs => S (toggles evs)
  | _ :: evs => toggles evs
  end.

(** A press of the start or play-again button. *)
Definition isStart (e : event) : bool :=
  match e with StartGame => true | _ => false end.

(** The events of one run: none of them is a restart. *)
Definition noStart (evs : list event) : bool :=
  forallb (fun e => negb (isStart e)) evs.

(** Whether the processed tick [e] finds an obstacle box overlapping the
    player's box. *)
Definition collides (s : State) (e : event) : bool :=
  processed s e
  && hasCollision (playerY (handle s e)) (isDucking s) (obstacles (handle s e)).

(** No processed tick of the run finds an overlap. *)
Fixpoint collisionFree (s : State) (evs : list event) : bool :=
  match evs with
  | [] => true
  | e :: evs => negb (collides s e) && collisionFree (dispatch s e) evs
  end.

(** The state of the bookkeeping once [NaN] has been read from a stored
    value [v]. *)
Definition poisoned (v : string) (s : State) : Prop :=
  highScore s = NaN /\ lastHighScore s = NaN /\
  achievedNewHighScore s = false /\ storage s = Some v.

(** ** Sample states and runs *)

(** A standing player on the ground in a started, unpaused run. *)
Definition standing : State :=
  mkState true false false 3 (Num 0) false 0 0 0 false [] (Num 0)
    3 (-100) 0 None.

(** A player in mid-jump over the ground, in a started, unpaused run. *)
Definition airborne : State :=
  mkState true false false 3 (Num 0) false 0 23.9 11.6 false [] (Num 0)
    3 (-100) 0 None.

(** A started run at frame 40 that has not spawned yet; its next frame is
    the first that spawns. *)
Definition beforeFirstSpawn : State :=
  mkState true false false 40 (Num 0) false 0 0 0 false [] (Num 0)
    40 (-100) 0 None.

(** A started run with a rock about to leave the playfield, a temple
    behind it. *)
Definition leaving : State :=
  mkState true false false 300 (Num 0) false 0 0 0 true
    [ {| x := -97; type := rock |}; {| x := 400; type := temple |} ]
    (Num 0) 300 250 2 None.

(** A standing player with a rock one step ahead of its box. *)
Definition atRock : State :=
  mkState true false false 200 (Num 0) false 0 0 0 false
    [ {| x := 132.5; type := rock |} ] (Num 0) 200 150 1 None.

(** A ducking player with a temple one step ahead of its box. *)
Definition underTemple : State :=
  mkState true false false 200 (Num 0) false 0 0 0 true
    [ {| x := 132.5; type := temple |} ] (Num 0) 200 150 1 None.

(** A run that ducks at once and meets temples only. *)
Definition duckingRun (n : nat) : list event :=
  SetDuck true :: repeat (Frame 0.6) n.

(** The run in which the player stands until the first temple is six
    frames away, jumps, presses duck in the air, and meets the temple. *)
Definition duckInTheAir : list event :=
  StartGame :: repeat (Frame 0.6) 218
    ++ [Jump; SetDuck true] ++ repeat (Frame 0.6) 4.

(** A fresh run of a component mounted over a store that holds 50. *)
Definition stored50 : State := dispatch (mount (Some "50"%string)) StartGame.

(** ** Keyboard and buttons *)

(** The key codes the keyboard handlers distinguish. *)
Inductive KeyCode : Type := Escape | Space | ArrowUp | ArrowDown | OtherKey.

Definition handleKeyDown (code : KeyCode) (s : State) : State :=
  match code with
  | Escape => togglePause s
  | Space =>
      if gameOver s then startGame s
      else if paused s then togglePause s
      else jump s
  | ArrowUp => if negb (gameOver s) && negb (paused s) then jump s else s
  | ArrowDown => if negb (paused s) then setDuck true s else s
  | OtherKey => s
  end.

Definition handleKeyUp (code : KeyCode) (s : State) : State :=
  match code with
  | ArrowDown => setDuck false s
  | _ => s
  end.

(** What reaches the component from outside: keys, the three overlay
    buttons, the two mobile buttons, and animation frames.  An overlay
    button can only be clicked while its overlay is rendered: the start
    screen while the game is not started, the pause screen while paused
    and not over, the game-over screen while over. *)
Inductive input : Type :=
| KeyDown (code : KeyCode)
| KeyUp (code : KeyCode)
| ClickStart
| ClickResume
| ClickPlayAgain
| JumpButton
| DuckButton (ducking : bool)
| Tick (rand : Q).

Definition uiHandle (s : State) (i : input) : State :=
  match i with
  | KeyDown code => handleKeyDown code s
  | KeyUp code => handleKeyUp code s
  | ClickStart => if negb (gameStarted s) then startGame s else s
  | ClickResume => if paused s && negb (gameOver s) then togglePause s else s
  | ClickPlayAgain => if gameOver s then startGame s else s
  | JumpButton => jump s
  | DuckButton ducking => setDuck ducking s
  | Tick rand => handle s (Frame rand)
  end.

Definition ui (s : State) (i : input) : State := effects s (uiHandle s i).

Definition session (s : State) (inputs : list input) : State :=
  fold_left ui inputs s.

(** ** The engine as a four-state machine *)

Inductive Phase : Type := Idle | Running | Paused | GameOver.

Definition phase (s : State) : Phase :=
  if gameOver s then GameOver
  else if negb (gameStarted s) then Idle
  else if paused s then Paused
  else Running.

(** The phase after an event; [hit] tells whether a processed tick found
    a collision. *)
Definition nextPhase (p : Phase) (e : event) (hit : bool) : Phase :=
  match e, p with
  | StartGame, _ => Running
  | Jump, Idle => Running
  | TogglePause, Running => Paused
  | TogglePause, Paused => Running
  | Frame _, Running => if hit then GameOver else Running
  | _, _ => p
  end.

(** ** The jump arc *)

(** Height and velocity [k] frames after a jump from the ground. *)
Definition arcY (k : Z) : Q := 12.65 * inject_Z k - 0.35 * inject_Z k * inject_Z k.
Definition arcV (k : Z) : Q := 13 - 0.7 * inject_Z k.

(** The player is on the ground, at rest or about to leave it, or at a
    point of the jump arc. *)
Definition onArc (s : State) : Prop :=
  exists k : Z,
    (0 <= k <= 36)%Z /\ playerY s == arcY k /\
    (velocity s == arcV k \/ (k = 0%Z /\ velocity s == 0)).

(** ** Further invariants *)

(** Obstacles from left to right, all left of the spawn point. *)
Definition leftToRight (obs : list Obstacle) : Prop :=
  StronglySorted (fun a b => x a < x b) obs /\ Forall (fun o => x o < 800) obs.

(** The counters of the spawner in a run. *)
Definition cadence (s : State) : Prop :=
  (0 <= frameCount s)%Z /\
  (lastObstacleFrame s <= frameCount s)%Z /\
  (frameCount s - lastObstacleFrame s <= 140)%Z.

(** [a <= b] on high scores that are numbers; [NaN] only below itself. *)
Definition numLe (a b : number) : Prop :=
  match a, b with
  | Num m, Num n => (m <= n)%Z
  | NaN, NaN => True
  | _, _ => False
  end.

(** The counters of the game-loop effect. *)
Definition sameLoop (a b : State) : Prop :=
  frameCount a = frameCount b /\ lastObstacleFrame a = lastObstacleFrame b /\
  obstacleCount a = obstacleCount b.

(** Once the game was started, score and frame counter agree. *)
Definition scoreIsFrames (s : State) : Prop :=
  gameStarted s = true -> frameCount s = score s.

(** Counters and obstacle order together: the order needs the frame
    counter to be non-negative, which makes the speed positive. *)
Definition orderly (s : State) : Prop :=
  cadence s /\ leftToRight (obstacles s).

(** Counters and background offset together. *)
Definition scrolling (s : State) : Prop :=
  cadence s /\ 0 <= bgOffset s < 800.

(** The ref and the state cell of the high score hold the same value. *)
Definition agree (s : State) : Prop := lastHighScore s = highScore s.

(** Above the threshold 100 a numeric high score is not behind the score. *)
Definition covers (s : State) : Prop :=
  gameStarted s = true -> (100 < score s)%Z ->
  forall h : Z, highScore s = Num h -> (score s <= h)%Z.

(** Ref and cell agree and, above 100, the high score covers the score. *)
Definition tracked (s : State) : Prop := agree s /\ covers s.

(** Heights and velocities of the arc, checked frame by frame. *)
Definition arcTable : bool :=
  forallb (fun n => let k := Z.of_nat n in
                    Qltb 0 (arcY k) && Qle_bool (arcY k) 114.3
                    && Qle_bool (-12.2) (arcV k) && Qle_bool (arcV k) 12.3
                    && Bool.eqb (Qle_bool 36 (arcY k)) ((4 <=? k)%Z && (k <=? 33)%Z)
                    && Bool.eqb (Qle_bool 111 (arcY k)) ((15 <=? k)%Z && (k <=? 21)%Z))
    (seq 1 36).

(** Distance covered up to frame [n] by an obstacle spawned at frame 41,
    the first frame that spawns. *)
Fixpoint travelled (n : nat) : Q :=
  match n with
  | O => 0
  | S m => travelled m + (if (41 <=? Z.of_nat n)%Z then baseSpeed (Z.of_nat n) else 0)
  end.

(** The state of a run that has lasted [frameCount] ticks: no obstacle
    is further left than the first one can be. *)
Definition early (s : State) : Prop :=
  (0 <= frameCount s)%Z /\
  frameCount s = score s /\
  (lastObstacleFrame s = (-100)%Z \/
   (41 <= lastObstacleFrame s <= frameCount s)%Z) /\
  ((frameCount s <= 40)%Z -> obstacles s = []) /\
  Forall (fun o => 800 - travelled (Z.to_nat (frameCount s)) <= x o) (obstacles s) /\
  (gameOver s = true -> (223 <= frameCount s)%Z).

(** Once the game was started, the state is that of a run. *)
Definition inRun (s : State) : Prop := gameStarted s = true -> early s.

(** A player who ducked in the air, a temple one step ahead of the box. *)
Definition midAirDuck : State :=
  mkState true false false 200 (Num 0) false 0 34.8 10.9 true
    [ {| x := 132.5; type := temple |} ] (Num 0) 200 150 1 None.

(** ** The integrator in binary64 *)

#[local] Set Warnings "-inexact-float".

(** Lines 166 to 173 on binary64 numbers, with the kernel's primitive
    floats: the same subtraction, addition and comparison, each rounded
    to nearest as JavaScript does. *)
Definition integrate64 (playerY velocity : float) : float * float :=
  let velocity := (velocity - 0.7)%float in
  let playerY := (playerY + velocity)%float in
  if (playerY <=? 0)%float then (0%float, 0%float) else (playerY, velocity).

(** The states after 1, 2, ..., n frames from the state [p]. *)
Fixpoint arc64 (n : nat) (p : float * float) : list (float * float) :=
  match n with
  | O => []
  | S m => let q := integrate64 (fst p) (snd p) in q :: arc64 m q
  end.

(** Height and velocity in binary64: at rest, with the impulse of a jump
    request, and the 36 airborne states of a jump. *)
Definition states64 : list (float * float) :=
  (0%float, 0%float) :: (0%float, 13%float) :: arc64 36 (0%float, 13%float).

(** The exact rational value of a finite binary64 number. *)
Definition exactQ (f : float) : option Q :=
  match Prim2SF f with
  | SpecFloat.S754_zero _ => Some 0
  | SpecFloat.S754_finite sign m e =>
      let v := inject_Z (Z.pos m) * 2 ^ e in
      Some (if sign then - v else v)
  | _ => None
  end.

(** [f] is a finite number at most [eps] away from [q]. *)
Definition within (eps : Q) (f : float) (q : Q) : bool :=
  match exactQ f with
  | Some v => Qle_bool (q - eps) v && Qle_bool v (q + eps)
  | None => false
  end.

(** The binary64 arc against the exact one, frame by frame. *)
Definition arcTable64 : bool :=
  forallb (fun n =>
             match nth_error (arc64 37 (0%float, 13%float)) (Nat.pred n) with
             | Some (y, v) =>
                 within 0.000001 y (arcY (Z.of_nat n))
                 && within 0.000001 v (arcV (Z.of_nat n))
             | None => false
             end)
    (seq 1 36).

(** Height below 114.4 and velocity between -12.3 and 13, exactly. *)
Definition inBounds64 (p : float * float) : bool :=
  match exactQ (fst p), exactQ (snd p) with
  | Some y, Some v =>
      Qle_bool 0 y && Qltb y 114.4 && Qltb (-12.3) v && Qle_bool v 13
  | _, _ => false
  end.

(** * Properties *)

(** ** Comparisons *)

Lemma Qltb_lt (a b : Q) : Qltb a b = true <-> a < b.
Proof.
  unfold Qltb. rewrite Qlt_alt.
  destruct (a ?= b); split; intro H; congruence.
Qed.

Lemma Qltb_ge (a b : Q) : Qltb a b = false <-> b <= a.
Proof.
  split; intro H.
  - apply Qnot_lt_le. intro Hlt. apply Qltb_lt in Hlt. congruence.
  - destruct (Qltb a b) eqn:E; [|reflexivity].
    apply Qltb_lt in E. exfalso. apply (Qlt_not_le _ _ E H).
Qed.

Lemma Qle_bool_false (a b : Q) : Qle_bool a b = false <-> b < a.
Proof.
  split; intro H.
  - apply Qnot_le_lt. intro Hle. apply Qle_bool_iff in Hle. congruence.
  - destruct (Qle_bool a b) eqn:E; [|reflexivity].
    apply Qle_bool_iff in E. exfalso. apply (Qlt_not_le _ _ H E).
Qed.

(** Turns the boolean comparisons of a goal and its hypotheses into
    propositions and removes [Qred], for [lra]. *)
Ltac q_props :=
  repeat match goal with
  | H : Qltb _ _ = true |- _ => apply Qltb_lt in H
  | H : Qltb _ _ = false |- _ => apply Qltb_ge in H
  | H : Qle_bool _ _ = true |- _ => apply Qle_bool_iff in H
  | H : Qle_bool _ _ = false |- _ => apply Qle_bool_false in H
  | H : Qeq_bool _ _ = true |- _ => apply Qeq_bool_iff in H
  | H : context [Qred ?q] |- _ => rewrite (Qred_correct q) in H
  | |- context [Qred ?q] => rewrite (Qred_correct q)
  | |- Qltb _ _ = true => apply Qltb_lt
  | |- Qltb _ _ = false => apply Qltb_ge
  end.

(** ** Physics integrator *)

Lemma integrate_clamped (y v : Q) :
  y + (v - 0.7) <= 0 -> integrate y v = (0, 0).
Proof.
  intro H. unfold integrate.
  destruct (Qle_bool _ _) eqn:E; [reflexivity|].
  q_props. lra.
Qed.

Lemma integrate_airborne (y v : Q) :
  0 < y + (v - 0.7) ->
  fst (integrate y v) == y + (v - 0.7) /\ snd (integrate y v) == v - 0.7.
Proof.
  intro H. unfold integrate.
  destruct (Qle_bool _ _) eqn:E; cbn [fst snd]; q_props.
  - lra.
  - split; reflexivity.
Qed.

Lemma integrate_ground (y v : Q) :
  0 <= fst (integrate y v) /\
  (fst (integrate y v) == 0 -> snd (integrate y v) = 0).
Proof.
  unfold integrate.
  destruct (Qle_bool _ _) eqn:E; cbn [fst snd].
  - split; [lra | reflexivity].
  - split; [|intro H; exfalso]; q_props; lra.
Qed.

Lemma gameLoop_player (s : State) (rand : Q) :
  paused s = false ->
  playerY (gameLoop s rand) = fst (integrate (playerY s) (velocity s)) /\
  velocity (gameLoop s rand) = snd (integrate (playerY s) (velocity s)).
Proof.
  intro Hp. unfold gameLoop. rewrite Hp.
  destruct (integrate _ _) as [y v].
  destruct (spawn _ _ _) as [[o l] c]. cbn [playerY velocity fst snd].
  split; reflexivity.
Qed.

(** C3.  In a frame that is not paused the integrator subtracts the
    gravity 0.7 from the velocity, adds the new velocity to the position
    and, when the new position is at most 0, sets both to 0; so after the
    frame the position is never negative, and the velocity is 0 whenever
    the position is 0. *)
Theorem physics_integrator (s : State) (rand : Q) :
  paused s = false ->
  let v1 := velocity s - 0.7 in
  let y1 := playerY s + v1 in
  let s' := gameLoop s rand in
  (y1 <= 0 -> playerY s' = 0 /\ velocity s' = 0) /\
  (0 < y1 -> playerY s' == y1 /\ velocity s' == v1) /\
  0 <= playerY s' /\
  (playerY s' == 0 -> velocity s' = 0).
Proof.
  intros Hp v1 y1 s'.
  destruct (gameLoop_player s rand Hp) as [Hy Hv].
  fold s' in Hy, Hv. rewrite Hy, Hv.
  repeat split.
  - rewrite (integrate_clamped _ _ H). reflexivity.
  - rewrite (integrate_clamped _ _ H). reflexivity.
  - apply (integrate_airborne _ _ H).
  - apply (integrate_airborne _ _ H).
  - apply integrate_ground.
  - apply integrate_ground.
Qed.

Lemma physics_integrator_witness :
  playerY (gameLoop airborne 0.5) == 34.8 /\
  velocity (gameLoop airborne 0.5) == 10.9 /\
  0 <= playerY (gameLoop airborne 0.5).
Proof.
  pose proof (physics_integrator airborne 0.5 eq_refl) as H.
  cbv zeta in H. destruct H as (_ & Hair & Hge & _).
  destruct Hair as [Hy Hv]; [vm_compute; reflexivity|].
  split; [rewrite Hy; vm_compute; reflexivity|].
  split; [rewrite Hv; vm_compute; reflexivity|exact Hge].
Defined.

(** ** Difficulty scheduler *)

Lemma currentScore_mono (f1 f2 : Z) :
  (f1 <= f2)%Z -> (currentScore f1 <= currentScore f2)%Z.
Proof.
  intro H. unfold currentScore. apply Z.div_le_mono; lia.
Qed.

Lemma ramp_mono (c1 c2 : Z) :
  (c1 <= c2)%Z -> Qmin (inject_Z c1 * 0.1) 6 <= Qmin (inject_Z c2 * 0.1) 6.
Proof.
  intro H. rewrite Zle_Qle in H.
  destruct (Q.min_spec (inject_Z c1 * 0.1) 6) as [[L1 E1]|[L1 E1]];
    destruct (Q.min_spec (inject_Z c2 * 0.1) 6) as [[L2 E2]|[L2 E2]];
    rewrite E1, E2; lra.
Qed.

Lemma baseSpeed_cap (f : Z) : baseSpeed f <= 9.5.
Proof.
  unfold baseSpeed.
  pose proof (Q.le_min_r (inject_Z (currentScore f) * 0.1) 6). lra.
Qed.

Lemma spawnInterval_floor (f : Z) : (65 <= spawnInterval f)%Z.
Proof. unfold spawnInterval. lia. Qed.

(** C6.  Between two frame counts f1 <= f2 the speed does not decrease and
    the spawn interval does not increase; the speed, 3.5 plus a ramp of at
    most 6, is at most 9.5 and the spawn interval is at least 65. *)
Theorem difficulty_monotone_bounded (f1 f2 : Z) :
  (f1 <= f2)%Z ->
  baseSpeed f1 <= baseSpeed f2 /\
  (spawnInterval f2 <= spawnInterval f1)%Z /\
  baseSpeed f1 - 3.5 <= 6 /\ baseSpeed f2 - 3.5 <= 6 /\
  baseSpeed f1 <= 9.5 /\ baseSpeed f2 <= 9.5 /\
  (65 <= spawnInterval f1)%Z /\ (65 <= spawnInterval f2)%Z.
Proof.
  intro H. pose proof (currentScore_mono _ _ H) as Hc.
  pose proof (baseSpeed_cap f1). pose proof (baseSpeed_cap f2).
  repeat split; try lra; try apply spawnInterval_floor.
  - unfold baseSpeed. pose proof (ramp_mono _ _ Hc). lra.
  - unfold spawnInterval. lia.
Qed.

Lemma difficulty_monotone_bounded_witness :
  baseSpeed 59 <= baseSpeed 3000 /\
  (spawnInterval 3000 <= spawnInterval 59)%Z /\
  baseSpeed 3000 <= 9.5 /\ (65 <= spawnInterval 3000)%Z.
Proof.
  destruct (difficulty_monotone_bounded 59 3000) as (H1 & H2 & _ & _ & _ & H3 & _ & H4).
  - lia.
  - repeat split; assumption.
Defined.

(** ** Jump *)

Lemma effects_same_deps (old new : State) :
  score new = score old ->
  gameStarted new = gameStarted old ->
  gameOver new = gameOver old ->
  highScore new = highScore old ->
  effects old new = new.
Proof.
  intros Hs Hg Ho Hh. unfold effects, trackRuns, trackDepsChanged, loopDepsChanged.
  rewrite Hs, Hg, Ho, Hh, Z.eqb_refl, !Bool.eqb_reflx.
  replace (number_eqb (highScore old) (highScore old)) with true
    by (destruct (highScore old); cbn; [rewrite Z.eqb_refl|]; reflexivity).
  reflexivity.
Qed.

Lemma jump_active (s : State) :
  gameStarted s = true -> gameOver s = false ->
  jump s = if isDucking s then s
           else if Qeq_bool (playerY s) 0 then set_velocity 13 s else s.
Proof.
  intros Hg Ho. unfold jump. rewrite Hg, Ho. reflexivity.
Qed.

(** In a started run a jump request never restarts. *)
Lemma jump_active_or_over (s : State) :
  gameStarted s = true ->
  jump s = if gameOver s || isDucking s then s
           else if Qeq_bool (playerY s) 0 then set_velocity 13 s else s.
Proof.
  intros Hg. unfold jump. rewrite Hg. reflexivity.
Qed.

Lemma dispatch_jump_active (s : State) :
  gameStarted s = true -> gameOver s = false -> dispatch s Jump = jump s.
Proof.
  intros Hg Ho. unfold dispatch, handle.
  apply effects_same_deps; rewrite (jump_active s Hg Ho);
    destruct (isDucking s); try reflexivity;
    destruct (Qeq_bool (playerY s) 0); reflexivity.
Qed.



(** ** What the handlers and effects leave alone *)

Ltac case_ifs :=
  repeat match goal with
  | |- context [if ?b then _ else _] => destruct b
  end.

Lemma trackHighScore_sameRun (s : State) : sameRun (trackHighScore s) s.
Proof.
  unfold trackHighScore, set_storage, sameRun.
  case_ifs; cbn; repeat split; reflexivity.
Qed.

Lemma gameLoopEffect_sameRun (s : State) : sameRun (gameLoopEffect s) s.
Proof.
  unfold gameLoopEffect, sameRun.
  case_ifs; cbn; repeat split; reflexivity.
Qed.

Lemma sameRun_trans (a b c : State) : sameRun a b -> sameRun b c -> sameRun a c.
Proof.
  unfold sameRun. intros H1 H2.
  decompose [and] H1. decompose [and] H2. repeat split; congruence.
Qed.

Lemma sameRun_refl (a : State) : sameRun a a.
Proof. unfold sameRun. repeat split; reflexivity. Qed.

Lemma effects_sameRun (old new : State) : sameRun (effects old new) new.
Proof.
  unfold effects, trackRuns.
  assert (H : sameRun
    (fold_left (fun _ s => trackHighScore s)
       (if trackDepsChanged old new
        then if number_eqb (highScore new) (highScore (trackHighScore new))
             then [new] else [new; trackHighScore new]
        else []) new) new).
  { destruct (trackDepsChanged old new); [|apply sameRun_refl].
    destruct (number_eqb _ _); cbn [fold_left].
    - apply trackHighScore_sameRun.
    - eapply sameRun_trans; apply trackHighScore_sameRun. }
  destruct (loopDepsChanged old new); [|exact H].
  eapply sameRun_trans; [apply gameLoopEffect_sameRun|exact H].
Qed.

Lemma dispatch_sameRun (s : State) (e : event) : sameRun (dispatch s e) (handle s e).
Proof. apply effects_sameRun. Qed.

(** The parts of an unpaused frame, read off the resulting state. *)
Lemma gameLoop_unpaused (s : State) (rand : Q) :
  paused s = false ->
  let fc := (frameCount s + 1)%Z in
  let sp := spawn fc rand (obstacles s, lastObstacleFrame s, obstacleCount s) in
  let s' := gameLoop s rand in
  frameCount s' = fc /\
  obstacles s' = moveObstacles (baseSpeed fc) (fst (fst sp)) /\
  lastObstacleFrame s' = snd (fst sp) /\
  obstacleCount s' = snd sp /\
  score s' = (score s + 1)%Z /\
  gameOver s' =
    (if hasCollision (playerY s') (isDucking s) (obstacles s') then true
     else gameOver s) /\
  gameStarted s' = gameStarted s /\ paused s' = false /\
  isDucking s' = isDucking s /\
  highScore s' = highScore s /\ lastHighScore s' = lastHighScore s /\
  achievedNewHighScore s' = achievedNewHighScore s /\
  storage s' = storage s.
Proof.
  intros Hp fc sp s'. subst s' sp fc. unfold gameLoop. rewrite Hp.
  destruct (integrate _ _) as [y v].
  destruct (spawn _ _ _) as [[o l] c].
  cbn [frameCount obstacles lastObstacleFrame obstacleCount score gameOver
       gameStarted paused isDucking highScore lastHighScore
       achievedNewHighScore storage playerY fst snd].
  repeat split; reflexivity.
Qed.

(** ** Obstacle spawner *)

Lemma spawns_iff (frame last : Z) :
  spawns frame last = true <-> (frame - last > spawnInterval frame)%Z.
Proof. unfold spawns. rewrite Z.ltb_lt. lia. Qed.

Lemma pickType_partition (rand : Q) :
  0 <= rand < 1 ->
  (pickType rand = rock <-> 0 <= rand < 0.3) /\
  (pickType rand = scorpion <-> 0.3 <= rand < 0.5) /\
  (pickType rand = temple <-> 0.5 <= rand < 0.7) /\
  (pickType rand = statue <-> 0.7 <= rand < 0.85) /\
  (pickType rand = snake <-> 0.85 <= rand < 1).
Proof.
  intros [H0 H1]. unfold pickType.
  destruct (Qltb rand 0.3) eqn:E1; [|destruct (Qltb rand 0.5) eqn:E2;
    [|destruct (Qltb rand 0.7) eqn:E3; [|destruct (Qltb rand 0.85) eqn:E4]]];
    q_props; repeat split; intros; try discriminate; try lra.
Qed.

Lemma spawn_fires (frame last count : Z) (obs : list Obstacle) (rand : Q) :
  spawns frame last = true ->
  spawn frame rand (obs, last, count)
  = (obs ++ [ {| x := 800; type := pickType rand |} ], frame, (count + 1)%Z).
Proof. intro H. unfold spawn. rewrite H. reflexivity. Qed.

Lemma spawn_idle (frame last count : Z) (obs : list Obstacle) (rand : Q) :
  spawns frame last = false ->
  spawn frame rand (obs, last, count) = (obs, last, count).
Proof. intro H. unfold spawn. rewrite H. reflexivity. Qed.

(** C8.  In an unpaused frame with frame count fc (the incremented
    counter) the spawner fires exactly when fc minus the last spawn frame
    exceeds the spawn interval.  When it fires, the one random value of
    [0,1) selects exactly one of the five categories by the cumulative
    thresholds 0.3, 0.5, 0.7, 0.85, the new obstacle is appended after the
    live ones at x = 800 (and then moved with them), and fc becomes the
    last spawn frame; when it does not fire, the list and the last spawn
    frame are as before. *)
Theorem spawner_contract (s : State) (rand : Q) :
  paused s = false -> 0 <= rand < 1 ->
  let fc := (frameCount s + 1)%Z in
  let s' := gameLoop s rand in
  ((fc - lastObstacleFrame s > spawnInterval fc)%Z ->
   spawn fc rand (obstacles s, lastObstacleFrame s, obstacleCount s)
   = (obstacles s ++ [ {| x := 800; type := pickType rand |} ], fc,
      (obstacleCount s + 1)%Z) /\
   obstacles s' =
     moveObstacles (baseSpeed fc)
       (obstacles s ++ [ {| x := 800; type := pickType rand |} ]) /\
   lastObstacleFrame s' = fc) /\
  (~ (fc - lastObstacleFrame s > spawnInterval fc)%Z ->
   obstacles s' = moveObstacles (baseSpeed fc) (obstacles s) /\
   lastObstacleFrame s' = lastObstacleFrame s) /\
  (pickType rand = rock <-> 0 <= rand < 0.3) /\
  (pickType rand = scorpion <-> 0.3 <= rand < 0.5) /\
  (pickType rand = temple <-> 0.5 <= rand < 0.7) /\
  (pickType rand = statue <-> 0.7 <= rand < 0.85) /\
  (pickType rand = snake <-> 0.85 <= rand < 1).
Proof.
  intros Hp Hr fc s'.
  destruct (gameLoop_unpaused s rand Hp) as (_ & Ho & Hl & _).
  fold fc s' in Ho, Hl.
  split; [|split; [|apply (pickType_partition rand Hr)]].
  - intro H. apply spawns_iff in H.
    rewrite Ho, Hl, (spawn_fires _ _ _ _ _ H). repeat split; reflexivity.
  - intro H. rewrite <- spawns_iff in H. apply not_true_is_false in H.
    rewrite Ho, Hl, (spawn_idle _ _ _ _ _ H). split; reflexivity.
Qed.

Lemma spawner_contract_witness :
  obstacles (gameLoop beforeFirstSpawn 0.6)
  = moveObstacles (baseSpeed 41) [ {| x := 800; type := temple |} ] /\
  lastObstacleFrame (gameLoop beforeFirstSpawn 0.6) = 41%Z /\
  lastObstacleFrame (gameLoop standing 0.6) = (-100)%Z.
Proof.
  assert (Hr : 0 <= 0.6 < 1) by (split; lra).
  destruct (spawner_contract beforeFirstSpawn 0.6 eq_refl Hr) as (Hf & _).
  destruct (spawner_contract standing 0.6 eq_refl Hr) as (_ & Hi & _).
  cbv zeta in Hf, Hi.
  destruct Hf as (_ & Ho & Hl); [vm_compute; reflexivity|].
  destruct Hi as (_ & Hl'); [vm_compute; intro H; discriminate|].
  split; [exact Ho|split; [exact Hl|exact Hl']].
Defined.

(** ** Motion updater *)

Lemma filter_Subseq {A : Type} (p : A -> bool) (l : list A) :
  Subseq (filter p l) l.
Proof.
  induction l as [|a l IH]; cbn [filter].
  - constructor.
  - destruct (p a); constructor; exact IH.
Qed.

Lemma moveObstacles_onScreen (v : Q) (obs : list Obstacle) :
  onScreen (moveObstacles v obs).
Proof.
  unfold onScreen, moveObstacles. apply Forall_forall.
  intros o Hin. apply filter_In in Hin. destruct Hin as [_ H].
  apply Qltb_lt in H. exact H.
Qed.

Lemma moveObstacles_kept (v : Q) (obs : list Obstacle) :
  Forall2 (movedFrom v) (moveObstacles v obs)
    (filter (fun o => Qltb (-100) (x o - v)) obs).
Proof.
  unfold moveObstacles.
  induction obs as [|o obs IH]; cbn [map filter x]; [constructor|].
  assert (E : Qltb (-100) (Qred (x o - v)) = Qltb (-100) (x o - v)).
  { unfold Qltb. rewrite (Qred_correct (x o - v)). reflexivity. }
  rewrite E. destruct (Qltb (-100) (x o - v)); [|exact IH].
  constructor; [|exact IH].
  split; cbn [x type]; [apply Qred_correct|reflexivity].
Qed.

Lemma loadHighScore_sameRun (s : State) : sameRun (loadHighScore s) s.
Proof.
  unfold loadHighScore, sameRun.
  destruct (storage s) as [v|]; [destruct (JS.truthy (Some v))|];
    cbn; repeat split; reflexivity.
Qed.

Lemma mount_sameRun (stored : option string) :
  sameRun (mount stored) (initial stored).
Proof.
  unfold mount.
  eapply sameRun_trans; [apply effects_sameRun|].
  eapply sameRun_trans; [apply trackHighScore_sameRun|].
  apply loadHighScore_sameRun.
Qed.

Lemma handle_onScreen (s : State) (e : event) :
  onScreen (obstacles s) -> onScreen (obstacles (handle s e)).
Proof.
  intro H. destruct e as [| |d| |rand]; cbn [handle].
  - constructor.
  - unfold jump. case_ifs; try exact H. constructor.
  - unfold setDuck. case_ifs; exact H.
  - unfold togglePause. case_ifs; exact H.
  - destruct (gameStarted s && negb (gameOver s)); [|exact H].
    destruct (paused s) eqn:Hp.
    + unfold gameLoop. rewrite Hp. exact H.
    + destruct (gameLoop_unpaused s rand Hp) as (_ & Ho & _).
      rewrite Ho. apply moveObstacles_onScreen.
Qed.

Lemma dispatch_onScreen (s : State) (e : event) :
  onScreen (obstacles s) -> onScreen (obstacles (dispatch s e)).
Proof.
  intro H. pose proof (dispatch_sameRun s e) as Hs.
  unfold sameRun in Hs. decompose [and] Hs.
  replace (obstacles (dispatch s e)) with (obstacles (handle s e)) by congruence.
  apply handle_onScreen, H.
Qed.

Lemma run_onScreen (evs : list event) (s : State) :
  onScreen (obstacles s) -> onScreen (obstacles (run s evs)).
Proof.
  revert s. induction evs as [|e evs IH]; intros s H; cbn [run fold_left].
  - exact H.
  - apply IH, dispatch_onScreen, H.
Qed.

(** C7.  In an unpaused frame, with [live] the obstacles after the
    spawner and v the speed of the difficulty scheduler at the new frame
    count, the new obstacle list is, element by element and in the same
    order, the sub-sequence [kept] of [live] moved left by v, where [kept]
    holds exactly the obstacles that are still right of the cutoff -100
    after the move; so no obstacle of the new list is at or below -100.
    The same holds of the list after any sequence of events from a
    mounted component. *)
Theorem motion_updater (s : State) (rand : Q) :
  paused s = false ->
  let fc := (frameCount s + 1)%Z in
  let v := baseSpeed fc in
  let live :=
    fst (fst (spawn fc rand (obstacles s, lastObstacleFrame s, obstacleCount s))) in
  let s' := gameLoop s rand in
  (exists kept : list Obstacle,
      Subseq kept live /\
      Forall2 (movedFrom v) (obstacles s') kept /\
      (forall o, In o live -> (In o kept <-> -100 < x o - v))) /\
  onScreen (obstacles s') /\
  (forall (stored : option string) (evs : list event),
      onScreen (obstacles (run (mount stored) evs))).
Proof.
  intros Hp fc v live s'.
  destruct (gameLoop_unpaused s rand Hp) as (_ & Ho & _).
  fold fc v live s' in Ho. rewrite Ho.
  split; [|split].
  - exists (filter (fun o => Qltb (-100) (x o - v)) live).
    split; [apply filter_Subseq|].
    split; [apply moveObstacles_kept|].
    intros o Hin. rewrite filter_In, Qltb_lt. tauto.
  - apply moveObstacles_onScreen.
  - intros stored evs. apply run_onScreen.
    pose proof (mount_sameRun stored) as Hs.
    unfold sameRun in Hs. decompose [and] Hs.
    replace (obstacles (mount stored)) with (obstacles (initial stored))
      by congruence.
    constructor.
Qed.

Lemma motion_updater_witness :
  obstacles (gameLoop leaving 0.1) = [ {| x := 396; type := temple |} ] /\
  onScreen (obstacles (gameLoop leaving 0.1)).
Proof.
  split; [vm_compute; reflexivity|].
  apply (motion_updater leaving 0.1 eq_refl).
Defined.

(** ** Pause *)

Lemma gameLoop_paused (s : State) (rand : Q) :
  paused s = true -> gameLoop s rand = s.
Proof. intro H. unfold gameLoop. rewrite H. reflexivity. Qed.

Lemma dispatch_frame_paused (s : State) (rand : Q) :
  paused s = true -> dispatch s (Frame rand) = s.
Proof.
  intro H. unfold dispatch. cbn [handle].
  rewrite (gameLoop_paused s rand H).
  destruct (gameStarted s && negb (gameOver s));
    apply effects_same_deps; reflexivity.
Qed.

Lemma dispatch_togglePause (s : State) : dispatch s TogglePause = togglePause s.
Proof.
  unfold dispatch. cbn [handle].
  apply effects_same_deps; unfold togglePause; case_ifs; reflexivity.
Qed.

Lemma togglePause_involutive (s : State) : togglePause (togglePause s) = s.
Proof.
  unfold togglePause.
  destruct (negb (gameStarted s) || gameOver s) eqn:E.
  - rewrite E. reflexivity.
  - cbn [set_paused gameStarted gameOver paused]. rewrite E.
    rewrite negb_involutive. destruct s. reflexivity.
Qed.

Lemma run_pausedTicksOnly (evs : list event) (s : State) :
  pausedTicksOnly s evs = true ->
  run s evs = if Nat.even (toggles evs) then s else togglePause s.
Proof.
  revert s. induction evs as [|e evs IH]; intros s H; [reflexivity|].
  destruct e as [| |d| |rand]; cbn [pausedTicksOnly] in H; try discriminate.
  - cbn [run fold_left toggles]. fold (run (dispatch s TogglePause) evs).
    rewrite (IH _ H), dispatch_togglePause, togglePause_involutive.
    rewrite Nat.even_succ, <- Nat.negb_even.
    destruct (Nat.even (toggles evs)); reflexivity.
  - apply andb_prop in H. destruct H as [Hp H].
    cbn [run fold_left toggles]. fold (run (dispatch s (Frame rand)) evs).
    rewrite (dispatch_frame_paused s rand Hp) in *.
    apply IH, H.
Qed.

(** C5.  A tick that arrives while the paused flag is set returns the
    state as it is, the whole record, so position, velocity, obstacles,
    score and frame counter are unchanged.  Hence a sequence of pause
    toggles and ticks in which every tick arrives while paused, with an
    even number of toggles, ends in the state it started from. *)
Theorem pause_short_circuit (s : State) (rand : Q) (evs : list event) :
  (paused s = true -> gameLoop s rand = s /\ dispatch s (Frame rand) = s) /\
  (pausedTicksOnly s evs = true -> Nat.even (toggles evs) = true ->
   run s evs = s).
Proof.
  split.
  - intro H. split; [apply gameLoop_paused|apply dispatch_frame_paused]; exact H.
  - intros H He. rewrite (run_pausedTicksOnly evs s H), He. reflexivity.
Qed.

Lemma pause_short_circuit_witness :
  gameLoop (set_paused true airborne) 0.1 = set_paused true airborne /\
  run airborne
    [TogglePause; Frame 0.1; Frame 0.2; TogglePause; TogglePause; Frame 0.3;
     TogglePause] = airborne.
Proof.
  split.
  - destruct (pause_short_circuit (set_paused true airborne) 0.1 []) as [H _].
    apply (H eq_refl).
  - destruct (pause_short_circuit airborne 0
      [TogglePause; Frame 0.1; Frame 0.2; TogglePause; TogglePause; Frame 0.3;
       TogglePause]) as [_ H].
    apply H; vm_compute; reflexivity.
Defined.

(** ** Score *)

Lemma handle_in_run (s : State) (e : event) :
  gameStarted s = true -> isStart e = false ->
  gameStarted (handle s e) = true /\
  score (handle s e) = (score s + if processed s e then 1 else 0)%Z /\
  gameOver (handle s e) = (if collides s e then true else gameOver s).
Proof.
  intros Hg He. unfold collides.
  destruct e as [| |d| |rand]; try discriminate; cbn [handle processed andb].
  - rewrite Z.add_0_r. unfold jump. rewrite Hg. cbn [negb andb].
    case_ifs; repeat split; assumption.
  - rewrite Z.add_0_r. unfold setDuck. case_ifs; repeat split; assumption.
  - rewrite Z.add_0_r. unfold togglePause. case_ifs; repeat split; assumption.
  - rewrite Hg. cbn [andb].
    destruct (gameOver s) eqn:Ho; cbn [negb andb];
      [rewrite Z.add_0_r; repeat split; assumption|].
    destruct (paused s) eqn:Hp; cbn [negb andb].
    + rewrite (gameLoop_paused s rand Hp), Z.add_0_r. repeat split; assumption.
    + destruct (gameLoop_unpaused s rand Hp) as (_ & _ & _ & _ & Hs & Hc & Hst & _).
      rewrite Hs, Hc, Hst, Ho. repeat split; assumption.
Qed.

Lemma dispatch_in_run (s : State) (e : event) :
  gameStarted s = true -> isStart e = false ->
  gameStarted (dispatch s e) = true /\
  score (dispatch s e) = (score s + if processed s e then 1 else 0)%Z /\
  gameOver (dispatch s e) = (if collides s e then true else gameOver s).
Proof.
  intros Hg He. pose proof (dispatch_sameRun s e) as Hs.
  unfold sameRun in Hs. destruct Hs as (H1 & H2 & _ & H3 & _).
  rewrite H1, H2, H3. apply handle_in_run; assumption.
Qed.

Lemma run_score (evs : list event) (s : State) :
  gameStarted s = true -> noStart evs = true ->
  score (run s evs) = (score s + Z.of_nat (processedFrames s evs))%Z.
Proof.
  revert s. induction evs as [|e evs IH]; intros s Hg Hn.
  - cbn. lia.
  - cbn [noStart forallb] in Hn. apply andb_prop in Hn. destruct Hn as [He Hn].
    apply negb_true_iff in He.
    destruct (dispatch_in_run s e Hg He) as (Hg' & Hs & _).
    cbn [run fold_left processedFrames]. fold (run (dispatch s e) evs).
    rewrite (IH _ Hg' Hn), Hs.
    destruct (processed s e); lia.
Qed.

Lemma run_collisionFree (evs : list event) (s : State) :
  gameStarted s = true -> noStart evs = true -> gameOver s = false ->
  collisionFree s evs = true -> gameOver (run s evs) = false.
Proof.
  revert s. induction evs as [|e evs IH]; intros s Hg Hn Ho Hc.
  - exact Ho.
  - cbn [noStart forallb] in Hn. apply andb_prop in Hn. destruct Hn as [He Hn].
    apply negb_true_iff in He.
    cbn [collisionFree] in Hc. apply andb_prop in Hc. destruct Hc as [Hc1 Hc].
    apply negb_true_iff in Hc1.
    destruct (dispatch_in_run s e Hg He) as (Hg' & _ & Ho').
    rewrite Hc1, Ho in Ho'.
    cbn [run fold_left]. fold (run (dispatch s e) evs).
    apply IH; assumption.
Qed.

Lemma dispatch_StartGame (s : State) :
  gameStarted (dispatch s StartGame) = true /\
  gameOver (dispatch s StartGame) = false /\
  paused (dispatch s StartGame) = false /\
  score (dispatch s StartGame) = 0%Z.
Proof.
  pose proof (dispatch_sameRun s StartGame) as Hs.
  unfold sameRun in Hs. destruct Hs as (H1 & H2 & H3 & H4 & _).
  rewrite H1, H2, H3, H4. repeat split; reflexivity.
Qed.

(** C2.  A tick that arrives while the game is started, not over and not
    paused adds exactly one to the score; no event of a run lowers the
    score; and a fresh run in which exactly 650 ticks are processed and no
    processed tick finds an obstacle box overlapping the player's box ends
    with gameOver = false and score = 650. *)
Theorem score_per_frame (s : State) (rand : Q) (evs : list event) :
  (gameStarted s = true -> gameOver s = false -> paused s = false ->
   score (dispatch s (Frame rand)) = (score s + 1)%Z) /\
  (gameStarted s = true -> noStart evs = true ->
   (score s <= score (run s evs))%Z) /\
  (let fresh := dispatch s StartGame in
   noStart evs = true ->
   processedFrames fresh evs = 650%nat ->
   collisionFree fresh evs = true ->
   gameOver (run fresh evs) = false /\ score (run fresh evs) = 650%Z).
Proof.
  split; [|split].
  - intros Hg Ho Hp.
    destruct (dispatch_in_run s (Frame rand) Hg eq_refl) as (_ & Hs & _).
    rewrite Hs. cbn [processed]. rewrite Hg, Ho, Hp. reflexivity.
  - intros Hg Hn. rewrite (run_score evs s Hg Hn). lia.
  - intros fresh Hn Hf Hc.
    destruct (dispatch_StartGame s) as (Hg & Ho & _ & Hs). fold fresh in Hg, Ho, Hs.
    split.
    + apply run_collisionFree; assumption.
    + rewrite (run_score evs fresh Hg Hn), Hs, Hf. reflexivity.
Qed.

Lemma score_per_frame_witness :
  score (dispatch standing (Frame 0.6)) = 4%Z /\
  (score standing <= score (run standing (duckingRun 650)))%Z /\
  gameOver (run (dispatch (mount None) StartGame) (duckingRun 650)) = false /\
  score (run (dispatch (mount None) StartGame) (duckingRun 650)) = 650%Z.
Proof.
  split; [|split].
  - apply (score_per_frame standing 0.6 []); reflexivity.
  - apply (score_per_frame standing 0 (duckingRun 650)); reflexivity.
  - apply (score_per_frame (mount None) 0 (duckingRun 650));
      vm_compute; reflexivity.
Defined.

(** ** Collision detector *)

Lemma hasCollision_exists (y : Q) (d : bool) (obs : list Obstacle) :
  hasCollision y d obs = true <-> exists o, In o obs /\ hits y d o = true.
Proof. unfold hasCollision. apply existsb_exists. Qed.

Lemma hitY_low (y : Q) (d : bool) (o : Obstacle) :
  isHigh (type o) = false ->
  hitY y d o = true <-> y < 36 /\ 4 < y + playerHeight d.
Proof.
  intro H. unfold hitY, obsBottom, obsHeight. rewrite H.
  rewrite andb_true_iff, !Qltb_lt. split; intros [H1 H2]; split; lra.
Qed.

Lemma hitY_high (y : Q) (d : bool) (o : Obstacle) :
  isHigh (type o) = true ->
  hitY y d o = true <-> y < 111 /\ 39 < y + playerHeight d.
Proof.
  intro H. unfold hitY, obsBottom, obsHeight. rewrite H.
  rewrite andb_true_iff, !Qltb_lt. split; intros [H1 H2]; split; lra.
Qed.

(** C1, as the code has it.  For an obstacle tested in an unpaused frame
    whose horizontal interval overlaps the player's (both shrunk by the
    margin 3): a low obstacle (rock, scorpion) ends the game when the
    player is not ducking and at position 0, and does not hit a player at
    position 36 or higher, which includes every position above its top
    edge 40; a high obstacle (temple, statue, snake) does not hit a ducking
    player whose position is at most 19, in particular one on the ground,
    ends the game when the player is not ducking and below its bottom
    edge 35, and ends the game when the player is ducking in the air at a
    position above 19 and below 111.  The frame sets game-over exactly
    when some tested obstacle hits. *)
Theorem collision_outcome (s : State) (rand : Q) (obs : Obstacle) :
  paused s = false ->
  let s' := gameLoop s rand in
  In obs (obstacles s') -> hitX obs = true ->
  (isHigh (type obs) = false -> isDucking s = false -> playerY s' == 0 ->
   gameOver s' = true) /\
  (isHigh (type obs) = false -> 36 <= playerY s' ->
   hits (playerY s') (isDucking s) obs = false) /\
  (isHigh (type obs) = true -> isDucking s = true -> playerY s' <= 19 ->
   hits (playerY s') (isDucking s) obs = false) /\
  (isHigh (type obs) = true -> isDucking s = false -> playerY s' < 35 ->
   gameOver s' = true) /\
  (isHigh (type obs) = true -> isDucking s = true ->
   19 < playerY s' -> playerY s' < 111 ->
   hits (playerY s') (isDucking s) obs = true /\ gameOver s' = true) /\
  (gameOver s' = true <->
   gameOver s = true \/
   exists o, In o (obstacles s') /\ hits (playerY s') (isDucking s) o = true).
Proof.
  intros Hp s' Hin Hx.
  destruct (gameLoop_unpaused s rand Hp) as (_ & _ & _ & _ & _ & Hc & _).
  destruct (gameLoop_player s rand Hp) as (Py & _).
  destruct (integrate_ground (playerY s) (velocity s)) as (Hy0 & _).
  rewrite <- Py in Hy0.
  fold s' in Hc, Hy0.
  assert (Hover : hits (playerY s') (isDucking s) obs = true -> gameOver s' = true).
  { intro Hh. rewrite Hc.
    replace (hasCollision (playerY s') (isDucking s) (obstacles s')) with true;
      [reflexivity|].
    symmetry. apply hasCollision_exists. exists obs. split; assumption. }
  split; [|split; [|split; [|split; [|split; [|split]]]]].
  - intros Hl Hd Hy. apply Hover. unfold hits. rewrite Hx. cbn [andb].
    apply (hitY_low _ _ _ Hl). rewrite Hd. cbn [playerHeight]. lra.
  - intros Hl Hy. unfold hits. rewrite Hx. cbn [andb].
    apply not_true_is_false. intro Hh. apply (hitY_low _ _ _ Hl) in Hh. lra.
  - intros Hh Hd Hy. unfold hits. rewrite Hx. cbn [andb].
    apply not_true_is_false. intro Ht. apply (hitY_high _ _ _ Hh) in Ht.
    rewrite Hd in Ht. cbn [playerHeight] in Ht. lra.
  - intros Hh Hd Hy. apply Hover. unfold hits. rewrite Hx. cbn [andb].
    apply (hitY_high _ _ _ Hh). rewrite Hd. cbn [playerHeight]. lra.
  - intros Hh Hd Hlo Hhi.
    assert (Hit : hits (playerY s') (isDucking s) obs = true).
    { unfold hits. rewrite Hx. cbn [andb].
      apply (hitY_high _ _ _ Hh). rewrite Hd. cbn [playerHeight]. lra. }
    split; [exact Hit|apply Hover, Hit].
  - intro Ho. rewrite Hc in Ho.
    destruct (hasCollision _ _ _) eqn:E; [|left; exact Ho].
    right. apply hasCollision_exists, E.
  - intros [Ho|He]; rewrite Hc.
    + rewrite Ho. destruct (hasCollision _ _ _); reflexivity.
    + apply hasCollision_exists in He. rewrite He. reflexivity.
Qed.

Lemma collision_outcome_witness :
  gameOver (gameLoop atRock 0.1) = true /\
  hits (playerY (gameLoop underTemple 0.1)) true {| x := 128.7; type := temple |}
  = false /\
  gameOver (gameLoop midAirDuck 0.1) = true.
Proof.
  split; [|split].
  - pose proof (collision_outcome atRock 0.1 {| x := 128.7; type := rock |} eq_refl)
      as H.
    cbv zeta in H. destruct H as (H & _).
    + vm_compute. left. reflexivity.
    + vm_compute. reflexivity.
    + apply H; vm_compute; reflexivity.
  - pose proof (collision_outcome underTemple 0.1 {| x := 128.7; type := temple |}
                  eq_refl) as H.
    cbv zeta in H. destruct H as (_ & _ & H & _).
    + vm_compute. left. reflexivity.
    + vm_compute. reflexivity.
    + apply H; vm_compute; [reflexivity|reflexivity|discriminate].
  - pose proof (collision_outcome midAirDuck 0.1 {| x := 128.7; type := temple |}
                  eq_refl) as H.
    cbv zeta in H. destruct H as (_ & _ & _ & _ & H & _).
    + vm_compute. left. reflexivity.
    + vm_compute. reflexivity.
    + apply H; vm_compute; reflexivity.
Defined.

(** C1 as stated fails for a player that ducks in the air: the state
    below is reached by a run from a mounted component, the player is
    ducking, the temple's horizontal interval overlaps the player's, and
    the frame ends the game. *)
Lemma collision_high_ducking_counterexample :
  let s := run (mount None) duckInTheAir in
  let s' := gameLoop s 0.6 in
  let obs := {| x := 128.3; type := temple |} in
  gameStarted s = true /\ gameOver s = false /\ paused s = false /\
  isDucking s = true /\ playerY s' == 54.5 /\
  In obs (obstacles s') /\ isHigh (type obs) = true /\ hitX obs = true /\
  hits (playerY s') (isDucking s) obs = true /\
  gameOver s' = true /\ gameOver (dispatch s (Frame 0.6)) = true.
Proof.
  cbv zeta.
  do 5 (split; [vm_compute; reflexivity|]).
  split; [vm_compute; left; reflexivity|].
  do 4 (split; [vm_compute; reflexivity|]).
  vm_compute; reflexivity.
Qed.

(** ** High score *)

Lemma gameLoopEffect_sameHigh (s : State) : sameHigh (gameLoopEffect s) s.
Proof.
  unfold gameLoopEffect, sameHigh. case_ifs; cbn; repeat split; reflexivity.
Qed.

(** A handler other than a restart leaves the bookkeeping alone. *)
Lemma handle_sameHigh (s : State) (e : event) :
  gameStarted s = true -> isStart e = false -> sameHigh (handle s e) s.
Proof.
  intros Hg He. unfold sameHigh.
  destruct e as [| |d| |rand]; try discriminate; cbn [handle].
  - rewrite (jump_active_or_over s Hg). case_ifs; cbn; repeat split; reflexivity.
  - unfold setDuck. case_ifs; cbn; repeat split; reflexivity.
  - unfold togglePause. case_ifs; cbn; repeat split; reflexivity.
  - destruct (gameStarted s && negb (gameOver s)); [|repeat split; reflexivity].
    destruct (paused s) eqn:Hp.
    + rewrite (gameLoop_paused s rand Hp). repeat split; reflexivity.
    + destruct (gameLoop_unpaused s rand Hp)
        as (_ & _ & _ & _ & _ & _ & _ & _ & _ & H1 & H2 & H3 & H4).
      repeat split; assumption.
Qed.

Lemma number_eqb_refl (a : number) : number_eqb a a = true.
Proof. destruct a; cbn; [apply Z.eqb_refl|reflexivity]. Qed.

Lemma gt_irrefl (a : number) : gt a a = false.
Proof. destruct a; cbn; [apply Z.ltb_irrefl|reflexivity]. Qed.

Lemma trackHighScore_fire (s : State) :
  newHighScore s = true ->
  achievedNewHighScore (trackHighScore s) = true /\
  highScore (trackHighScore s) = Num (score s) /\
  lastHighScore (trackHighScore s) = Num (score s) /\
  storage (trackHighScore s) = Some (JS.toString (score s)).
Proof.
  intro H. unfold trackHighScore, set_storage. rewrite H.
  case_ifs; cbn; repeat split; reflexivity.
Qed.

Lemma trackHighScore_quiet (s : State) :
  newHighScore s = false ->
  achievedNewHighScore (trackHighScore s) = achievedNewHighScore s /\
  highScore (trackHighScore s) = highScore s /\
  lastHighScore (trackHighScore s) = lastHighScore s.
Proof.
  intro H. unfold trackHighScore, set_storage. rewrite H.
  case_ifs; cbn; repeat split; reflexivity.
Qed.

(** Once the in-memory values equal the score the effect does nothing. *)
Lemma trackHighScore_settled (s : State) :
  highScore s = Num (score s) -> lastHighScore s = Num (score s) ->
  trackHighScore s = s.
Proof.
  intros Hh Hl. unfold trackHighScore, newHighScore.
  rewrite Hh, Hl, gt_irrefl, !andb_false_r. reflexivity.
Qed.

Lemma trackHighScore_achieved (s : State) :
  achievedNewHighScore s = true -> achievedNewHighScore (trackHighScore s) = true.
Proof.
  intro H. unfold trackHighScore, set_storage.
  case_ifs; cbn; try reflexivity; exact H.
Qed.

(** After a handler that changed the score, the bookkeeping is that of
    one run of the high-score effect: a second run, caused by
    [setHighScore], changes nothing. *)
Lemma effects_after_score_change (old new : State) :
  score old <> score new ->
  sameHigh (effects old new) (trackHighScore new).
Proof.
  intro Hs. unfold effects, trackRuns, trackDepsChanged.
  apply Z.eqb_neq in Hs. rewrite Hs. cbn [andb negb].
  assert (H : fold_left (fun _ s => trackHighScore s)
                (if number_eqb (highScore new) (highScore (trackHighScore new))
                 then [new] else [new; trackHighScore new]) new
              = trackHighScore new).
  { destruct (number_eqb _ _) eqn:E; cbn [fold_left]; [reflexivity|].
    destruct (newHighScore new) eqn:F.
    - destruct (trackHighScore_fire new F) as (_ & Hh & Hl & _).
      assert (Hsc : score (trackHighScore new) = score new)
        by apply trackHighScore_sameRun.
      apply trackHighScore_settled; congruence.
    - destruct (trackHighScore_quiet new F) as (_ & Hh & _).
      rewrite Hh, number_eqb_refl in E. discriminate. }
  rewrite H. destruct (loopDepsChanged old new).
  - apply gameLoopEffect_sameHigh.
  - unfold sameHigh. repeat split; reflexivity.
Qed.

Lemma effects_achieved (old new : State) :
  achievedNewHighScore new = true ->
  achievedNewHighScore (effects old new) = true.
Proof.
  intro H. unfold effects, trackRuns.
  assert (Hf : achievedNewHighScore
    (fold_left (fun _ s => trackHighScore s)
       (if trackDepsChanged old new
        then if number_eqb (highScore new) (highScore (trackHighScore new))
             then [new] else [new; trackHighScore new]
        else []) new) = true).
  { destruct (trackDepsChanged old new); [|exact H].
    destruct (number_eqb _ _); cbn [fold_left];
      repeat apply trackHighScore_achieved; exact H. }
  destruct (loopDepsChanged old new); [|exact Hf].
  destruct (gameLoopEffect_sameHigh
    (fold_left (fun _ s => trackHighScore s)
       (if trackDepsChanged old new
        then if number_eqb (highScore new) (highScore (trackHighScore new))
             then [new] else [new; trackHighScore new]
        else []) new)) as (_ & _ & Ha & _).
  rewrite Ha. exact Hf.
Qed.

Lemma dispatch_achieved (s : State) (e : event) :
  gameStarted s = true -> isStart e = false ->
  achievedNewHighScore s = true ->
  achievedNewHighScore (dispatch s e) = true.
Proof.
  intros Hg He Ha. unfold dispatch. apply effects_achieved.
  destruct (handle_sameHigh s e Hg He) as (_ & _ & H & _). congruence.
Qed.

Lemma raisesRun_after (evs : list event) (s : State) :
  gameStarted s = true -> noStart evs = true ->
  achievedNewHighScore s = true -> raisesRun s evs = 0%nat.
Proof.
  revert s. induction evs as [|e evs IH]; intros s Hg Hn Ha; [reflexivity|].
  cbn [noStart forallb] in Hn. apply andb_prop in Hn. destruct Hn as [He Hn].
  apply negb_true_iff in He.
  cbn [raisesRun]. unfold raises. rewrite Ha. cbn [negb andb Nat.add].
  apply IH; [apply (dispatch_in_run s e Hg He)|exact Hn|].
  apply dispatch_achieved; assumption.
Qed.

Lemma raisesRun_once (evs : list event) (s : State) :
  gameStarted s = true -> noStart evs = true -> (raisesRun s evs <= 1)%nat.
Proof.
  revert s. induction evs as [|e evs IH]; intros s Hg Hn; [cbn; lia|].
  pose proof Hn as Hn0.
  cbn [noStart forallb] in Hn. apply andb_prop in Hn. destruct Hn as [He Hn].
  apply negb_true_iff in He.
  assert (Hg' : gameStarted (dispatch s e) = true)
    by apply (dispatch_in_run s e Hg He).
  cbn [raisesRun]. destruct (raises s e) eqn:Hr.
  - unfold raises in Hr. apply andb_prop in Hr. destruct Hr as [_ Hr].
    rewrite (raisesRun_after evs _ Hg' Hn Hr). lia.
  - specialize (IH _ Hg' Hn). lia.
Qed.

Lemma processed_frame (s : State) (rand : Q) :
  processed s (Frame rand) = true ->
  gameStarted s = true /\ gameOver s = false /\ paused s = false.
Proof.
  cbn [processed]. rewrite !andb_true_iff, !negb_true_iff. tauto.
Qed.

(** The bookkeeping after a processed tick is that of the high-score
    effect run once on the state the tick produced. *)
Lemma dispatch_frame_track (s : State) (rand : Q) :
  processed s (Frame rand) = true ->
  sameHigh (dispatch s (Frame rand)) (trackHighScore (gameLoop s rand)) /\
  score (dispatch s (Frame rand)) = (score s + 1)%Z /\
  newHighScore (gameLoop s rand)
  = gt (Num (score s + 1)) (lastHighScore s) && (100 <? score s + 1)%Z.
Proof.
  intro Hpr. destruct (processed_frame s rand Hpr) as (Hg & Ho & Hp).
  destruct (gameLoop_unpaused s rand Hp)
    as (_ & _ & _ & _ & Hs & _ & Hst & _ & _ & _ & Hl & _).
  split; [|split].
  - unfold dispatch. cbn [handle]. rewrite Hg, Ho. cbn [negb andb].
    apply effects_after_score_change. rewrite Hs. lia.
  - destruct (dispatch_in_run s (Frame rand) Hg eq_refl) as (_ & H & _).
    rewrite H, Hpr. reflexivity.
  - unfold newHighScore. rewrite Hs, Hst, Hl, Hg. reflexivity.
Qed.

(** C4, as the code has it.  In a run the flag [achievedNewHighScore]
    goes from false to true at most once.  A processed tick whose new raw
    score exceeds both the last high score in memory and 100 sets the
    flag, sets the high score and the last high score to the new score and
    writes the new score to the store; any other processed tick leaves the
    flag and the two in-memory values as they are.  With 50 stored, in a
    run that reaches raw score 600 the flag goes up once, at score 101,
    and the run ends with high score 600 and the store holding 600. *)
Theorem new_high_score_flag (s : State) (rand : Q) (evs : list event) :
  (gameStarted s = true -> noStart evs = true -> (raisesRun s evs <= 1)%nat) /\
  (processed s (Frame rand) = true ->
   let s' := dispatch s (Frame rand) in
   (gt (Num (score s + 1)) (lastHighScore s) = true -> (100 < score s + 1)%Z ->
    achievedNewHighScore s' = true /\
    highScore s' = Num (score s') /\
    lastHighScore s' = Num (score s') /\
    storage s' = Some (JS.toString (score s'))) /\
   (gt (Num (score s + 1)) (lastHighScore s) = false \/ (score s + 1 <= 100)%Z ->
    achievedNewHighScore s' = achievedNewHighScore s /\
    highScore s' = highScore s /\
    lastHighScore s' = lastHighScore s)) /\
  (let s0 := dispatch (mount (Some "50"%string)) StartGame in
   highScore s0 = Num 50 /\
   raisesRun s0 (duckingRun 600) = 1%nat /\
   achievedNewHighScore (run s0 (duckingRun 100)) = false /\
   achievedNewHighScore (run s0 (duckingRun 101)) = true /\
   score (run s0 (duckingRun 600)) = 600%Z /\
   highScore (run s0 (duckingRun 600)) = Num 600 /\
   storage (run s0 (duckingRun 600)) = Some "600"%string).
Proof.
  split; [|split].
  - apply raisesRun_once.
  - intros Hpr s'.
    destruct (dispatch_frame_track s rand Hpr) as ((Hh & Hl & Ha & Hst) & Hs & Hn).
    destruct (processed_frame s rand Hpr) as (_ & _ & Hp).
    destruct (gameLoop_unpaused s rand Hp)
      as (_ & _ & _ & _ & Hs1 & _ & _ & _ & _ & Hh1 & Hl1 & Ha1 & _).
    fold s' in Hh, Hl, Ha, Hst, Hs.
    split.
    + intros Hgt H100. apply Z.ltb_lt in H100.
      rewrite Hgt, H100 in Hn.
      destruct (trackHighScore_fire _ Hn) as (Fa & Fh & Fl & Fs).
      rewrite Hh, Hl, Ha, Hst, Hs, Fa, Fh, Fl, Fs, Hs1.
      repeat split; reflexivity.
    + intros Hq.
      assert (Hn' : newHighScore (gameLoop s rand) = false).
      { rewrite Hn. destruct Hq as [Hq|Hq].
        - rewrite Hq. reflexivity.
        - apply Z.ltb_ge in Hq. rewrite Hq. apply andb_false_r. }
      destruct (trackHighScore_quiet _ Hn') as (Fa & Fh & Fl).
      rewrite Hh, Hl, Ha, Fa, Fh, Fl, Hh1, Hl1, Ha1.
      repeat split; reflexivity.
  - cbv zeta. do 6 (split; [vm_compute; reflexivity|]). vm_compute; reflexivity.
Qed.

Lemma new_high_score_flag_witness :
  (raisesRun stored50 (duckingRun 600) <= 1)%nat /\
  achievedNewHighScore (dispatch (run stored50 (duckingRun 100)) (Frame 0.6))
  = true /\
  achievedNewHighScore (dispatch (run stored50 (duckingRun 50)) (Frame 0.6))
  = achievedNewHighScore (run stored50 (duckingRun 50)).
Proof.
  split; [|split].
  - destruct (new_high_score_flag stored50 0 (duckingRun 600)) as (H & _).
    apply H; vm_compute; reflexivity.
  - destruct (new_high_score_flag (run stored50 (duckingRun 100)) 0.6 [])
      as (_ & H & _).
    destruct H as (H & _); [vm_compute; reflexivity|].
    destruct H as (H & _); [vm_compute; reflexivity|vm_compute; reflexivity|].
    exact H.
  - destruct (new_high_score_flag (run stored50 (duckingRun 50)) 0.6 [])
      as (_ & H & _).
    destruct H as (_ & H); [vm_compute; reflexivity|].
    destruct H as (H & _); [right; vm_compute; discriminate|].
    exact H.
Defined.

(** C4 as stated fails: in its own scenario, 50 stored and a run reaching
    raw score 600, the block that signals the new high score and writes the
    store executes on each of the 500 ticks from score 101 to score 600;
    the flag is already up at raw score 101, which the display scale turns
    into 10, below the stored 50; and the store is overwritten, without
    any signal, on the ticks from score 51 to score 100. *)
Lemma new_high_score_repeats_counterexample :
  let s0 := dispatch (mount (Some "50"%string)) StartGame in
  lastHighScore s0 = Num 50 /\
  score (run s0 (duckingRun 600)) = 600%Z /\
  gameOver (run s0 (duckingRun 600)) = false /\
  newHighScoreCallsRun s0 (duckingRun 600) = 500%nat /\
  newHighScoreCallsRun s0 (duckingRun 600) <> 1%nat /\
  score (run s0 (duckingRun 101)) = 101%Z /\
  (score (run s0 (duckingRun 101)) / 10 <= 50)%Z /\
  achievedNewHighScore (run s0 (duckingRun 101)) = true /\
  achievedNewHighScore (run s0 (duckingRun 60)) = false /\
  storage (run s0 (duckingRun 60)) = Some "60"%string.
Proof.
  cbv zeta. do 4 (split; [vm_compute; reflexivity|]).
  split; [vm_compute; discriminate|].
  split; [vm_compute; reflexivity|].
  split; [vm_compute; discriminate|].
  do 2 (split; [vm_compute; reflexivity|]).
  vm_compute; reflexivity.
Qed.

(** ** Reading the stored high score *)

Lemma trackHighScore_NaN (s : State) :
  highScore s = NaN -> lastHighScore s = NaN -> trackHighScore s = s.
Proof.
  intros Hh Hl. unfold trackHighScore, newHighScore.
  rewrite Hh, Hl. cbn [gt]. rewrite !andb_false_r. reflexivity.
Qed.

Lemma effects_poisoned (v : string) (old new : State) :
  poisoned v new -> poisoned v (effects old new).
Proof.
  intros (Hh & Hl & Ha & Hs). unfold effects, trackRuns.
  rewrite (trackHighScore_NaN new Hh Hl), number_eqb_refl.
  assert (E : fold_left (fun _ s => trackHighScore s)
                (if trackDepsChanged old new then [new] else []) new = new).
  { destruct (trackDepsChanged old new); cbn [fold_left];
      [apply (trackHighScore_NaN new Hh Hl)|reflexivity]. }
  rewrite E. destruct (loopDepsChanged old new); [|repeat split; assumption].
  destruct (gameLoopEffect_sameHigh new) as (H1 & H2 & H3 & H4).
  unfold poisoned. rewrite H1, H2, H3, H4. repeat split; assumption.
Qed.

Lemma handle_poisoned (v : string) (s : State) (e : event) :
  poisoned v s -> poisoned v (handle s e).
Proof.
  intros (Hh & Hl & Ha & Hs). unfold poisoned.
  destruct e as [| |d| |rand]; cbn [handle].
  - cbn. repeat split; assumption.
  - unfold jump. case_ifs; cbn; repeat split; assumption.
  - unfold setDuck. case_ifs; cbn; repeat split; assumption.
  - unfold togglePause. case_ifs; cbn; repeat split; assumption.
  - destruct (gameStarted s && negb (gameOver s)); [|repeat split; assumption].
    destruct (paused s) eqn:Hp.
    + rewrite (gameLoop_paused s rand Hp). repeat split; assumption.
    + destruct (gameLoop_unpaused s rand Hp)
        as (_ & _ & _ & _ & _ & _ & _ & _ & _ & H1 & H2 & H3 & H4).
      rewrite H1, H2, H3, H4. repeat split; assumption.
Qed.

Lemma run_poisoned (v : string) (evs : list event) (s : State) :
  poisoned v s -> poisoned v (run s evs).
Proof.
  revert s. induction evs as [|e evs IH]; intros s H; [exact H|].
  cbn [run fold_left]. apply IH. unfold dispatch.
  apply effects_poisoned, handle_poisoned, H.
Qed.

Lemma mount_poisoned (v : string) :
  JS.truthy (Some v) = true -> JS.parseInt v = NaN -> poisoned v (mount (Some v)).
Proof.
  intros Ht Hp. unfold mount. apply effects_poisoned.
  assert (Hl : poisoned v (loadHighScore (initial (Some v)))).
  { unfold loadHighScore, initial. cbn [storage]. rewrite Ht, Hp.
    repeat split; reflexivity. }
  destruct Hl as (Hh & Hl & Ha & Hs).
  rewrite (trackHighScore_NaN _ Hh Hl). repeat split; assumption.
Qed.

(** C9 on the code.  An absent or empty stored value leaves the high
    score at 0.  A stored value that is not empty and that [parseInt]
    cannot read makes the in-memory high score [NaN], not 0; from then on,
    whatever happens, the high score stays [NaN], no new high score is
    signalled and the store keeps the unreadable value. *)
Theorem corrupt_high_score_is_NaN (v : string) (evs : list event) :
  highScore (mount None) = Num 0 /\
  highScore (mount (Some ""%string)) = Num 0 /\
  (JS.truthy (Some v) = true -> JS.parseInt v = NaN ->
   highScore (mount (Some v)) = NaN /\
   lastHighScore (mount (Some v)) = NaN /\
   highScore (run (mount (Some v)) evs) = NaN /\
   achievedNewHighScore (run (mount (Some v)) evs) = false /\
   storage (run (mount (Some v)) evs) = Some v).
Proof.
  split; [reflexivity|split; [reflexivity|]].
  intros Ht Hp.
  pose proof (mount_poisoned v Ht Hp) as Hm.
  destruct (run_poisoned v evs _ Hm) as (H1 & _ & H3 & H4).
  destruct Hm as (M1 & M2 & _).
  repeat split; assumption.
Qed.

Lemma corrupt_high_score_is_NaN_witness :
  highScore (mount (Some "abc"%string)) = NaN /\
  highScore (run (mount (Some "abc"%string)) (StartGame :: duckingRun 300)) = NaN /\
  storage (run (mount (Some "abc"%string)) (StartGame :: duckingRun 300))
  = Some "abc"%string.
Proof.
  destruct (corrupt_high_score_is_NaN "abc" (StartGame :: duckingRun 300))
    as (_ & _ & H).
  destruct H as (H1 & _ & H3 & _ & H5); [reflexivity|reflexivity|].
  split; [exact H1|split; [exact H3|exact H5]].
Defined.

(** * Further properties of the engine *)

(** ** Game over, idle, restart and the phase machine *)

Lemma effects_refl (s : State) : effects s s = s.
Proof. apply effects_same_deps; reflexivity. Qed.

Lemma handle_over (s : State) (e : event) :
  gameOver s = true -> isStart e = false -> handle s e = s.
Proof.
  intros Ho He. destruct e as [| |d| |rand]; try discriminate; cbn [handle].
  - unfold jump. rewrite Ho. rewrite andb_false_r. reflexivity.
  - unfold setDuck. rewrite Ho, orb_true_r. reflexivity.
  - unfold togglePause. rewrite Ho, orb_true_r. reflexivity.
  - rewrite Ho, andb_false_r. reflexivity.
Qed.

Lemma dispatch_over (s : State) (e : event) :
  gameOver s = true -> isStart e = false -> dispatch s e = s.
Proof.
  intros Ho He. unfold dispatch. rewrite (handle_over s e Ho He).
  apply effects_refl.
Qed.

Lemma run_over (evs : list event) (s : State) :
  gameOver s = true -> noStart evs = true -> run s evs = s.
Proof.
  induction evs as [|e evs IH]; intros Ho Hn; [reflexivity|].
  cbn [noStart forallb] in Hn. apply andb_prop in Hn. destruct Hn as [He Hn].
  apply negb_true_iff in He.
  cbn [run fold_left]. rewrite (dispatch_over s e Ho He). apply IH; assumption.
Qed.

(** X1.  Game over is terminal: once the flag is set, a jump, a duck
    request, a pause toggle or a tick leaves the whole state as it is, and
    so does any sequence of them; only a restart leaves the state. *)
Theorem game_over_is_terminal (s : State) (evs : list event) :
  gameOver s = true -> noStart evs = true -> run s evs = s.
Proof. apply run_over. Qed.

Lemma game_over_is_terminal_witness :
  run (dispatch atRock (Frame 0.1)) [Jump; SetDuck true; TogglePause; Frame 0.2]
  = dispatch atRock (Frame 0.1).
Proof.
  apply (game_over_is_terminal (dispatch atRock (Frame 0.1))).
  - vm_compute. reflexivity.
  - reflexivity.
Defined.

Lemma handle_idle (s : State) (e : event) :
  gameStarted s = false -> gameOver s = false ->
  handle s e = match e with
               | StartGame | Jump => startGame s
               | _ => s
               end.
Proof.
  intros Hg Ho. destruct e as [| |d| |rand]; cbn [handle].
  - reflexivity.
  - unfold jump. rewrite Hg, Ho. reflexivity.
  - unfold setDuck. rewrite Hg. reflexivity.
  - unfold togglePause. rewrite Hg. reflexivity.
  - rewrite Hg. reflexivity.
Qed.

(** X2.  Before the first start a jump request starts the game exactly
    as the start button does, and a duck request, a pause toggle or a tick
    changes nothing. *)
Theorem idle_inputs (s : State) (ducking : bool) (rand : Q) :
  gameStarted s = false -> gameOver s = false ->
  dispatch s Jump = dispatch s StartGame /\
  dispatch s (SetDuck ducking) = s /\
  dispatch s TogglePause = s /\
  dispatch s (Frame rand) = s.
Proof.
  intros Hg Ho. unfold dispatch.
  rewrite !(handle_idle s _ Hg Ho), effects_refl.
  repeat split; reflexivity.
Qed.

Lemma idle_inputs_witness :
  dispatch (mount None) Jump = dispatch (mount None) StartGame /\
  dispatch (mount None) (Frame 0.5) = mount None.
Proof.
  destruct (idle_inputs (mount None) true 0.5 eq_refl eq_refl) as (H1 & _ & _ & H4).
  split; assumption.
Defined.

Lemma dispatch_StartGame_fields (s : State) :
  let s' := dispatch s StartGame in
  gameStarted s' = true /\ gameOver s' = false /\ paused s' = false /\
  score s' = 0%Z /\ playerY s' = 0 /\ velocity s' = 0 /\
  isDucking s' = false /\ obstacles s' = [] /\ bgOffset s' = bgOffset s.
Proof.
  intro s'. pose proof (dispatch_sameRun s StartGame) as H.
  unfold sameRun in H. fold s' in H. cbn [handle] in H.
  destruct H as (H1 & H2 & H3 & H4 & H5 & H6 & H7 & H8 & H9).
  rewrite H1, H2, H3, H4, H5, H6, H7, H8, H9. repeat split; reflexivity.
Qed.

Lemma trackHighScore_zero (s : State) : score s = 0%Z -> trackHighScore s = s.
Proof.
  intro H. unfold trackHighScore, newHighScore. rewrite H.
  cbn [Z.ltb Z.compare]. rewrite !andb_false_r. cbn [andb]. reflexivity.
Qed.

Lemma effects_startGame (s : State) :
  effects s (startGame s)
  = if loopDepsChanged s (startGame s) then gameLoopEffect (startGame s)
    else startGame s.
Proof.
  unfold effects, trackRuns.
  rewrite (trackHighScore_zero (startGame s) eq_refl), number_eqb_refl.
  destruct (trackDepsChanged s (startGame s)); cbn [fold_left];
    rewrite ?(trackHighScore_zero (startGame s) eq_refl); reflexivity.
Qed.

Lemma restart_fresh (s : State) :
  gameStarted s = false \/ gameOver s = true ->
  dispatch s StartGame =
  mkState true false false 0 (highScore s) false (bgOffset s) 0 0 false []
    (lastHighScore s) 0 (-100) 0 (storage s).
Proof.
  intro H. unfold dispatch. cbn [handle]. rewrite effects_startGame.
  assert (E : loopDepsChanged s (startGame s) = true).
  { unfold loopDepsChanged. cbn [startGame gameStarted gameOver].
    destruct H as [H|H]; rewrite H; [reflexivity|].
    destruct (gameStarted s); reflexivity. }
  rewrite E. reflexivity.
Qed.

(** X3.  A start from the idle screen or from game over reinitialises
    the whole run: flags, score, player, obstacles and the loop's counters
    get their initial values and the new-high-score flag is cleared, while
    the high score, the store and the background offset are kept. *)
Theorem restart_reinitialises (s : State) :
  gameStarted s = false \/ gameOver s = true ->
  dispatch s StartGame =
  mkState true false false 0 (highScore s) false (bgOffset s) 0 0 false []
    (lastHighScore s) 0 (-100) 0 (storage s).
Proof. apply restart_fresh. Qed.

Lemma restart_reinitialises_witness :
  frameCount (dispatch (dispatch atRock (Frame 0.1)) StartGame) = 0%Z /\
  obstacles (dispatch (dispatch atRock (Frame 0.1)) StartGame) = [].
Proof.
  rewrite (restart_reinitialises (dispatch atRock (Frame 0.1))).
  - split; reflexivity.
  - right. vm_compute. reflexivity.
Defined.

Lemma phase_flags (a b : State) :
  gameStarted a = gameStarted b -> gameOver a = gameOver b ->
  paused a = paused b -> phase a = phase b.
Proof. intros H1 H2 H3. unfold phase. rewrite H1, H2, H3. reflexivity. Qed.

Lemma phase_handle (s : State) (e : event) :
  phase (handle s e) = nextPhase (phase s) e (collides s e).
Proof.
  unfold phase, collides.
  destruct e as [| |d| |rand]; cbn [handle processed nextPhase andb].
  - destruct (gameOver s), (gameStarted s), (paused s); reflexivity.
  - unfold jump.
    destruct (gameStarted s) eqn:Hg, (gameOver s) eqn:Ho, (paused s) eqn:Hp,
      (isDucking s), (Qeq_bool (playerY s) 0);
      cbn; rewrite ?Hg, ?Ho, ?Hp; reflexivity.
  - unfold setDuck.
    destruct (gameStarted s) eqn:Hg, (gameOver s) eqn:Ho, (paused s) eqn:Hp;
      cbn; rewrite ?Hg, ?Ho, ?Hp; reflexivity.
  - unfold togglePause.
    destruct (gameStarted s) eqn:Hg, (gameOver s) eqn:Ho, (paused s) eqn:Hp;
      cbn; rewrite ?Hg, ?Ho, ?Hp; reflexivity.
  - destruct (gameStarted s) eqn:Hg, (gameOver s) eqn:Ho, (paused s) eqn:Hp;
      cbn [negb andb orb]; rewrite ?Hg, ?Ho, ?Hp;
      try rewrite (gameLoop_paused s rand Hp), ?Hg, ?Ho, ?Hp; try reflexivity.
    destruct (gameLoop_unpaused s rand Hp)
      as (_ & _ & _ & _ & _ & Hc & Hst & Hpa & _).
    rewrite Hc, Hst, Hpa, Hg, Ho.
    destruct (hasCollision _ _ _); reflexivity.
Qed.

(** X4.  The three flags implement the machine Idle, Running, Paused,
    GameOver: for every state and event the phase after the event is the
    one the machine gives, where a tick in Running goes to GameOver
    exactly when it finds a collision; in particular only a start or the
    first jump leaves Idle, only a start leaves GameOver, and a tick never
    leaves Paused. *)
Theorem phase_machine (s : State) (e : event) :
  phase (dispatch s e) = nextPhase (phase s) e (collides s e).
Proof.
  rewrite <- phase_handle.
  pose proof (dispatch_sameRun s e) as H. unfold sameRun in H.
  destruct H as (H1 & H2 & H3 & _).
  apply phase_flags; assumption.
Qed.

(** ** Keyboard *)

Lemma ui_noop (s : State) (i : input) : uiHandle s i = s -> ui s i = s.
Proof. intro H. unfold ui. rewrite H. apply effects_refl. Qed.




(** X6.  After game over only Space restarts from the keyboard: it does
    what the play-again button does, while Escape, ArrowUp, ArrowDown and
    every key release leave the state as it is.  On the idle screen Space
    and ArrowUp both start the game. *)
Theorem keyboard_restart (s : State) (code : KeyCode) :
  (gameOver s = true ->
   ui s (KeyDown Space) = dispatch s StartGame /\
   ui s ClickPlayAgain = dispatch s StartGame /\
   ui s (KeyDown Escape) = s /\
   ui s (KeyDown ArrowUp) = s /\
   ui s (KeyDown ArrowDown) = s /\
   ui s (KeyUp code) = s) /\
  (gameStarted s = false -> gameOver s = false -> paused s = false ->
   ui s (KeyDown Space) = dispatch s StartGame /\
   ui s (KeyDown ArrowUp) = dispatch s StartGame /\
   ui s ClickStart = dispatch s StartGame).
Proof.
  split.
  - intro Ho.
    split; [|split; [|split; [|split; [|split]]]].
    + unfold ui, dispatch. cbn [uiHandle handleKeyDown handle]. rewrite Ho. reflexivity.
    + unfold ui, dispatch. cbn [uiHandle handle]. rewrite Ho. reflexivity.
    + apply ui_noop. apply (handle_over s TogglePause Ho eq_refl).
    + apply ui_noop. cbn [uiHandle handleKeyDown]. rewrite Ho. reflexivity.
    + apply ui_noop. cbn [uiHandle handleKeyDown].
      destruct (negb (paused s)); [|reflexivity].
      apply (handle_over s (SetDuck true) Ho eq_refl).
    + apply ui_noop. destruct code; cbn [uiHandle handleKeyUp]; try reflexivity.
      apply (handle_over s (SetDuck false) Ho eq_refl).
  - intros Hg Ho Hp.
    assert (Hj : jump s = startGame s)
      by (unfold jump; rewrite Hg, Ho; reflexivity).
    unfold ui, dispatch. cbn [uiHandle handleKeyDown handle].
    rewrite Hg, Ho, Hp, Hj. repeat split; reflexivity.
Qed.

Lemma keyboard_restart_witness :
  ui (dispatch atRock (Frame 0.1)) (KeyDown ArrowUp) = dispatch atRock (Frame 0.1) /\
  ui (mount None) (KeyDown ArrowUp) = dispatch (mount None) StartGame.
Proof.
  split.
  - destruct (keyboard_restart (dispatch atRock (Frame 0.1)) Space) as (H & _).
    destruct H as (_ & _ & _ & H & _); [vm_compute; reflexivity|exact H].
  - destruct (keyboard_restart (mount None) Space) as (_ & H).
    destruct (H eq_refl eq_refl eq_refl) as (_ & H2 & _). exact H2.
Defined.

(** ** Difficulty: where the ramps start and stop *)

Lemma currentScore_bounds (f lo : Z) :
  (60 * lo <= f < 60 * (lo + 1))%Z -> currentScore f = lo.
Proof.
  intro H. unfold currentScore. symmetry.
  apply (Z.div_unique f 60 lo (f - 60 * lo)); lia.
Qed.

Lemma currentScore_ge (f lo : Z) : (60 * lo <= f)%Z -> (lo <= currentScore f)%Z.
Proof.
  intro H. unfold currentScore. apply Z.div_le_lower_bound; lia.
Qed.

Lemma currentScore_lt (f hi : Z) : (f < 60 * hi)%Z -> (currentScore f < hi)%Z.
Proof.
  intro H. unfold currentScore. apply Z.div_lt_upper_bound; lia.
Qed.

(** X7.  The difficulty is a staircase in the whole seconds
    c = floor(frames / 60): below 3600 frames the speed is 3.5 + 0.1 c and
    from 3600 frames on it is 9.5; below 2280 frames the spawn interval is
    140 - 2 c and from 2280 frames on it is 65. *)
Theorem difficulty_staircase (f : Z) :
  (0 <= f)%Z ->
  ((f < 3600)%Z -> baseSpeed f == 3.5 + 0.1 * inject_Z (f / 60)) /\
  ((3600 <= f)%Z -> baseSpeed f == 9.5) /\
  ((f < 2280)%Z -> spawnInterval f = (140 - 2 * (f / 60))%Z) /\
  ((2280 <= f)%Z -> spawnInterval f = 65%Z).
Proof.
  intro H0.
  assert (Hc0 : (0 <= currentScore f)%Z) by (apply currentScore_ge; lia).
  split; [|split; [|split]]; intro H.
  - unfold baseSpeed. fold (currentScore f).
    pose proof (currentScore_lt f 60 ltac:(lia)) as Hc.
    rewrite Q.min_l; [lra|].
    assert (Hq : inject_Z (currentScore f) <= inject_Z 60)
      by (rewrite <- Zle_Qle; lia).
    change (inject_Z 60) with 60 in Hq. lra.
  - unfold baseSpeed.
    pose proof (currentScore_ge f 60 ltac:(lia)) as Hc.
    rewrite Q.min_r; [lra|].
    assert (Hq : inject_Z 60 <= inject_Z (currentScore f))
      by (rewrite <- Zle_Qle; lia).
    change (inject_Z 60) with 60 in Hq. lra.
  - unfold spawnInterval. fold (currentScore f).
    pose proof (currentScore_lt f 38 ltac:(lia)). lia.
  - unfold spawnInterval.
    pose proof (currentScore_ge f 38 ltac:(lia)). lia.
Qed.

Lemma difficulty_staircase_witness :
  baseSpeed 125 == 3.7 /\ baseSpeed 5000 == 9.5 /\
  spawnInterval 125 = 136%Z /\ spawnInterval 5000 = 65%Z.
Proof.
  destruct (difficulty_staircase 125) as (H1 & _ & H3 & _); [lia|].
  destruct (difficulty_staircase 5000) as (_ & H2 & _ & H4); [lia|].
  split; [rewrite H1; [vm_compute; reflexivity|lia]|].
  split; [apply H2; lia|].
  split; [apply H3; lia|apply H4; lia].
Defined.

(** ** Invariants of the loop counters *)

Lemma trackHighScore_sameLoop (s : State) : sameLoop (trackHighScore s) s.
Proof.
  unfold trackHighScore, set_storage, sameLoop.
  case_ifs; cbn; repeat split; reflexivity.
Qed.

(** The effects amount to some runs of the high-score effect and then,
    if the loop's dependencies changed, the set-up of the loop. *)
Lemma effects_shape (old new : State) :
  exists t : State,
    sameRun t new /\ sameLoop t new /\
    effects old new = (if loopDepsChanged old new then gameLoopEffect t else t).
Proof.
  exists (fold_left (fun _ s => trackHighScore s) (trackRuns old new) new).
  split; [|split; [|reflexivity]]; unfold trackRuns;
    destruct (trackDepsChanged old new);
    try (apply sameRun_refl); try (repeat split; reflexivity);
    destruct (number_eqb _ _); cbn [fold_left].
  - apply trackHighScore_sameRun.
  - eapply sameRun_trans; apply trackHighScore_sameRun.
  - apply trackHighScore_sameLoop.
  - destruct (trackHighScore_sameLoop (trackHighScore new)) as (A1 & A2 & A3).
    destruct (trackHighScore_sameLoop new) as (B1 & B2 & B3).
    repeat split; congruence.
Qed.

Lemma gameLoopEffect_counters (s : State) :
  sameLoop (gameLoopEffect s) s \/
  (frameCount (gameLoopEffect s) = 0%Z /\
   lastObstacleFrame (gameLoopEffect s) = (-100)%Z /\
   obstacleCount (gameLoopEffect s) = 0%Z /\
   gameStarted s = true /\ gameOver s = false).
Proof.
  unfold gameLoopEffect.
  destruct (gameStarted s), (gameOver s); cbn [negb orb];
    try (left; repeat split; reflexivity).
  right. repeat split; reflexivity.
Qed.

Lemma effects_cadence (old new : State) : cadence new -> cadence (effects old new).
Proof.
  intros (H1 & H2 & H3).
  destruct (effects_shape old new) as (t & _ & (L1 & L2 & _) & E).
  rewrite E. unfold cadence.
  destruct (loopDepsChanged old new).
  - destruct (gameLoopEffect_counters t) as [(A1 & A2 & _)|(A1 & A2 & _)];
      rewrite A1, A2; [rewrite L1, L2|]; repeat split; lia.
  - rewrite L1, L2. repeat split; assumption.
Qed.

Lemma spawnInterval_le_140 (f : Z) : (0 <= f)%Z -> (spawnInterval f <= 140)%Z.
Proof.
  intro H. unfold spawnInterval.
  assert (0 <= currentScore f)%Z by (apply currentScore_ge; lia). lia.
Qed.

Lemma gameLoop_cadence (s : State) (rand : Q) :
  cadence s -> cadence (gameLoop s rand).
Proof.
  intros (H1 & H2 & H3). destruct (paused s) eqn:Hp.
  - rewrite (gameLoop_paused s rand Hp). repeat split; assumption.
  - destruct (gameLoop_unpaused s rand Hp) as (Hf & _ & Hl & _).
    unfold cadence. rewrite Hf, Hl. unfold spawn.
    destruct (spawns (frameCount s + 1) (lastObstacleFrame s)) eqn:E; cbn [fst snd].
    + repeat split; lia.
    + pose proof (spawnInterval_le_140 (frameCount s + 1) ltac:(lia)).
      unfold spawns in E. apply Z.ltb_ge in E. repeat split; lia.
Qed.

Lemma handle_cadence (s : State) (e : event) : cadence s -> cadence (handle s e).
Proof.
  intro H. destruct e as [| |d| |rand]; cbn [handle].
  - exact H.
  - unfold jump. case_ifs; exact H.
  - unfold setDuck. case_ifs; exact H.
  - unfold togglePause. case_ifs; exact H.
  - destruct (gameStarted s && negb (gameOver s));
      [apply gameLoop_cadence|]; exact H.
Qed.

Lemma loadHighScore_sameLoop (s : State) : sameLoop (loadHighScore s) s.
Proof.
  unfold loadHighScore, sameLoop.
  destruct (storage s) as [v|]; [destruct (JS.truthy (Some v))|];
    cbn; repeat split; reflexivity.
Qed.

Lemma mount_cadence (stored : option string) : cadence (mount stored).
Proof.
  unfold mount. apply effects_cadence.
  destruct (trackHighScore_sameLoop (loadHighScore (initial stored))) as (A1 & A2 & _).
  destruct (loadHighScore_sameLoop (initial stored)) as (B1 & B2 & _).
  unfold cadence. rewrite A1, A2, B1, B2. cbn. repeat split; lia.
Qed.

Lemma run_cadence (evs : list event) (s : State) :
  cadence s -> cadence (run s evs).
Proof.
  revert s. induction evs as [|e evs IH]; intros s H; [exact H|].
  cbn [run fold_left]. apply IH. unfold dispatch.
  apply effects_cadence, handle_cadence, H.
Qed.

Lemma spawn_first (fc : Z) :
  (0 <= fc)%Z -> spawns fc (-100) = true -> (41 <= fc)%Z.
Proof.
  intros H0 Hs. apply spawns_iff in Hs. unfold spawnInterval in Hs.
  destruct (Z_lt_le_dec fc 41) as [Hlt|Hge]; [|exact Hge].
  rewrite (currentScore_bounds fc 0) in Hs; lia.
Qed.

(** X8.  The spawner's rhythm.  A spawn needs more than 65 frames since
    the previous one, so two spawns are at least 66 frames apart; with a
    non-negative frame count a gap of 141 frames always spawns; counted
    from the initial last-spawn frame -100 the first spawn of a run is at
    frame 41.  In every state reached from a mounted component the frame
    counter is non-negative and at most 140 ahead of the last spawn frame. *)
Theorem spawn_cadence (stored : option string) (evs : list event) (fc last : Z) :
  (spawns fc last = true -> (66 <= fc - last)%Z) /\
  ((0 <= fc)%Z -> (141 <= fc - last)%Z -> spawns fc last = true) /\
  ((0 <= fc)%Z -> (spawns fc (-100) = true <-> (41 <= fc)%Z)) /\
  cadence (run (mount stored) evs).
Proof.
  split; [|split; [|split]].
  - intro H. apply spawns_iff in H.
    pose proof (spawnInterval_floor fc). lia.
  - intros H0 H. apply spawns_iff.
    pose proof (spawnInterval_le_140 fc H0). lia.
  - intro H0. rewrite spawns_iff. unfold spawnInterval.
    assert (0 <= currentScore fc)%Z by (apply currentScore_ge; lia).
    split; intro Hs.
    + destruct (Z_lt_le_dec fc 41) as [Hlt|Hge]; [|exact Hge].
      rewrite (currentScore_bounds fc 0) in Hs; lia.
    + lia.
  - apply run_cadence, mount_cadence.
Qed.

Lemma spawn_cadence_witness :
  (66 <= 41 - -100)%Z /\ spawns 500 300 = true /\ spawns 41 (-100) = true.
Proof.
  destruct (spawn_cadence None [] 41 (-100)) as (H1 & _ & H3 & _).
  destruct (spawn_cadence None [] 500 300) as (_ & H2 & _).
  split; [apply H1; reflexivity|].
  split; [apply H2; lia|apply H3; lia].
Defined.

(** ** The score is the frame counter *)

Lemma ui_cases (s : State) (i : input) :
  ui s i = s \/
  exists e : event,
    ui s i = dispatch s e /\
    (isStart e = true -> gameStarted s = false \/ gameOver s = true).
Proof.
  destruct i as [code|code| | | | |d|rand]; cbn [uiHandle].
  - destruct code.
    + right. exists TogglePause. split; [reflexivity|discriminate].
    + unfold ui. cbn [uiHandle handleKeyDown].
      destruct (gameOver s) eqn:Ho.
      * right. exists StartGame. split; [reflexivity|]. intros _. right. reflexivity.
      * destruct (paused s); right;
          [exists TogglePause|exists Jump]; (split; [reflexivity|discriminate]).
    + unfold ui. cbn [uiHandle handleKeyDown].
      destruct (negb (gameOver s) && negb (paused s)).
      * right. exists Jump. split; [reflexivity|discriminate].
      * left. apply effects_refl.
    + unfold ui. cbn [uiHandle handleKeyDown].
      destruct (negb (paused s)).
      * right. exists (SetDuck true). split; [reflexivity|discriminate].
      * left. apply effects_refl.
    + left. apply ui_noop. reflexivity.
  - destruct code; try (left; apply ui_noop; reflexivity).
    right. exists (SetDuck false). split; [reflexivity|discriminate].
  - unfold ui. cbn [uiHandle]. destruct (gameStarted s) eqn:Hg; cbn [negb].
    + left. apply effects_refl.
    + right. exists StartGame. split; [reflexivity|]. intros _. left. reflexivity.
  - unfold ui. cbn [uiHandle]. destruct (paused s && negb (gameOver s)).
    + right. exists TogglePause. split; [reflexivity|discriminate].
    + left. apply effects_refl.
  - unfold ui. cbn [uiHandle]. destruct (gameOver s) eqn:Ho.
    + right. exists StartGame. split; [reflexivity|]. intros _. right. reflexivity.
    + left. apply effects_refl.
  - right. exists Jump. split; [reflexivity|discriminate].
  - right. exists (SetDuck d). split; [reflexivity|discriminate].
  - right. exists (Frame rand). split; [reflexivity|discriminate].
Qed.

Lemma handle_frameCount (s : State) (e : event) :
  gameStarted s = true -> isStart e = false ->
  frameCount (handle s e) = (frameCount s + if processed s e then 1 else 0)%Z.
Proof.
  intros Hg He.
  destruct e as [| |d| |rand]; try discriminate; cbn [handle processed].
  - rewrite Z.add_0_r, (jump_active_or_over s Hg). case_ifs; reflexivity.
  - rewrite Z.add_0_r. unfold setDuck. case_ifs; reflexivity.
  - rewrite Z.add_0_r. unfold togglePause. case_ifs; reflexivity.
  - rewrite Hg. cbn [andb].
    destruct (gameOver s); cbn [negb andb]; [lia|].
    destruct (paused s) eqn:Hp; cbn [negb].
    + rewrite (gameLoop_paused s rand Hp). lia.
    + apply (gameLoop_unpaused s rand Hp).
Qed.

Lemma dispatch_frameCount (s : State) (e : event) :
  gameStarted s = true -> isStart e = false ->
  frameCount (dispatch s e) = (frameCount s + if processed s e then 1 else 0)%Z.
Proof.
  intros Hg He. rewrite <- (handle_frameCount s e Hg He).
  destruct (handle_in_run s e Hg He) as (Hg' & _ & Ho').
  unfold dispatch.
  destruct (effects_shape s (handle s e)) as (t & R & (L1 & _) & E).
  rewrite E. unfold loopDepsChanged. rewrite Hg', Hg. cbn [Bool.eqb andb].
  destruct (Bool.eqb (gameOver s) (gameOver (handle s e))) eqn:Eo;
    cbn [negb]; [exact L1|].
  assert (Hover : gameOver t = true).
  { destruct R as (_ & R2 & _). rewrite R2, Ho'.
    destruct (collides s e); [reflexivity|].
    rewrite Ho', Bool.eqb_reflx in Eo.
    destruct (collides s e); discriminate. }
  unfold gameLoopEffect. rewrite Hover, orb_true_r. exact L1.
Qed.

Lemma dispatch_scoreIsFrames (s : State) (e : event) :
  (isStart e = true -> gameStarted s = false \/ gameOver s = true) ->
  scoreIsFrames s -> scoreIsFrames (dispatch s e).
Proof.
  intros Hst Hinv.
  destruct (isStart e) eqn:He.
  - destruct e; try discriminate.
    rewrite (restart_fresh s (Hst eq_refl)). intros _. reflexivity.
  - destruct (gameStarted s) eqn:Hg.
    + intros _. destruct (dispatch_in_run s e Hg He) as (_ & Hs & _).
      rewrite (dispatch_frameCount s e Hg He), Hs, (Hinv Hg). reflexivity.
    + destruct (gameOver s) eqn:Ho.
      * rewrite (dispatch_over s e Ho He). intro H. congruence.
      * unfold dispatch. rewrite (handle_idle s e Hg Ho).
        destruct e; try discriminate;
          try (rewrite effects_refl; intro H; congruence).
        fold (handle s StartGame). fold (dispatch s StartGame).
        rewrite (restart_fresh s (or_introl Hg)). intros _. reflexivity.
Qed.

Lemma session_scoreIsFrames (inputs : list input) (s : State) :
  scoreIsFrames s -> scoreIsFrames (session s inputs).
Proof.
  revert s. induction inputs as [|i inputs IH]; intros s H; [exact H|].
  cbn [session fold_left]. apply IH.
  destruct (ui_cases s i) as [E|(e & E & Hst)]; rewrite E;
    [exact H|apply dispatch_scoreIsFrames; assumption].
Qed.

(** X9.  Whatever the player does with keys and buttons, once the game
    was started the loop's frame counter equals the score, also after
    restarts; so the difficulty, computed from the frame counter, is a
    function of the score shown on screen. *)
Theorem score_is_frame_counter (stored : option string) (inputs : list input) :
  let s := session (mount stored) inputs in
  gameStarted s = true ->
  frameCount s = score s /\
  currentScore (frameCount s) = (score s / 60)%Z.
Proof.
  intros s Hg.
  assert (H : frameCount s = score s).
  { apply (session_scoreIsFrames inputs (mount stored)); [|exact Hg].
    intro H. destruct (mount_sameRun stored) as (H1 & _).
    rewrite H1 in H. discriminate. }
  split; [exact H|]. rewrite H. reflexivity.
Qed.

(** ** Obstacles stay ordered *)

Lemma baseSpeed_min (f : Z) : (0 <= f)%Z -> 3.5 <= baseSpeed f.
Proof.
  intro H. unfold baseSpeed.
  assert (Hc : (0 <= currentScore f)%Z) by (apply currentScore_ge; lia).
  rewrite Zle_Qle in Hc. change (inject_Z 0) with 0 in Hc.
  destruct (Q.min_spec (inject_Z (currentScore f) * 0.1) 6) as [[_ E]|[_ E]];
    rewrite E; lra.
Qed.

Lemma leftToRight_spawn (obs : list Obstacle) (t : ObstacleType) :
  leftToRight obs ->
  StronglySorted (fun a b => x a < x b) (obs ++ [ {| x := 800; type := t |} ]).
Proof.
  intros [Hs Hb]. induction obs as [|o obs IH]; cbn [app].
  - repeat constructor.
  - apply StronglySorted_inv in Hs. destruct Hs as [Hs Ho].
    inversion Hb as [|? ? Hx Hb']; subst.
    constructor; [apply IH; assumption|].
    apply Forall_app. split; [exact Ho|].
    constructor; [exact Hx|constructor].
Qed.

Lemma leftToRight_move (v : Q) (obs : list Obstacle) (bound : Q) :
  StronglySorted (fun a b => x a < x b) obs ->
  Forall (fun o => x o <= bound) obs ->
  StronglySorted (fun a b => x a < x b) (moveObstacles v obs) /\
  Forall (fun o => x o <= bound - v) (moveObstacles v obs).
Proof.
  unfold moveObstacles. intros Hs Hb.
  induction obs as [|o obs IH]; cbn [map filter]; [split; constructor|].
  apply StronglySorted_inv in Hs. destruct Hs as [Hs Ho].
  inversion Hb as [|? ? Hx Hb']; subst.
  destruct (IH Hs Hb') as [IH1 IH2].
  destruct (Qltb _ _); [|split; assumption].
  split; constructor; try assumption.
  - apply Forall_forall. intros o' Hin.
    apply filter_In in Hin. destruct Hin as [Hin _].
    apply in_map_iff in Hin. destruct Hin as (o0 & E & Hin). subst o'.
    cbn [x]. rewrite !Qred_correct.
    rewrite Forall_forall in Ho. specialize (Ho o0 Hin). lra.
  - cbn [x]. rewrite Qred_correct. lra.
Qed.

Lemma gameLoop_leftToRight (s : State) (rand : Q) :
  (0 <= frameCount s)%Z -> leftToRight (obstacles s) ->
  leftToRight (obstacles (gameLoop s rand)).
Proof.
  intros Hf Hl. destruct (paused s) eqn:Hp.
  - rewrite (gameLoop_paused s rand Hp). exact Hl.
  - destruct (gameLoop_unpaused s rand Hp) as (_ & Ho & _). rewrite Ho.
    pose proof (baseSpeed_min (frameCount s + 1) ltac:(lia)) as Hv.
    assert (Hsp : StronglySorted (fun a b => x a < x b)
                    (fst (fst (spawn (frameCount s + 1) rand
                       (obstacles s, lastObstacleFrame s, obstacleCount s)))) /\
                  Forall (fun o => x o <= 800)
                    (fst (fst (spawn (frameCount s + 1) rand
                       (obstacles s, lastObstacleFrame s, obstacleCount s))))).
    { unfold spawn. destruct (spawns _ _); cbn [fst].
      - split; [apply leftToRight_spawn, Hl|].
        apply Forall_app. split.
        + destruct Hl as [_ Hb]. eapply Forall_impl; [|exact Hb].
          cbv beta. intros o H. lra.
        + constructor; [cbn [x]; lra|constructor].
      - destruct Hl as [Hs Hb]. split; [exact Hs|].
        eapply Forall_impl; [|exact Hb]. cbv beta. intros o H. lra. }
    destruct Hsp as [Hs Hb].
    destruct (leftToRight_move (baseSpeed (frameCount s + 1)) _ 800 Hs Hb)
      as [M1 M2].
    split; [exact M1|].
    eapply Forall_impl; [|exact M2]. cbv beta. intros o H. lra.
Qed.

Lemma handle_orderly (s : State) (e : event) : orderly s -> orderly (handle s e).
Proof.
  intros [Hc Hl]. split; [apply handle_cadence, Hc|].
  assert (Hnil : leftToRight []) by (split; constructor).
  destruct e as [| |d| |rand]; cbn [handle].
  - exact Hnil.
  - unfold jump. case_ifs; try exact Hl. exact Hnil.
  - unfold setDuck. case_ifs; exact Hl.
  - unfold togglePause. case_ifs; exact Hl.
  - destruct (gameStarted s && negb (gameOver s)); [|exact Hl].
    apply gameLoop_leftToRight; [apply Hc|exact Hl].
Qed.

Lemma dispatch_orderly (s : State) (e : event) : orderly s -> orderly (dispatch s e).
Proof.
  intro H. destruct (handle_orderly s e H) as [Hc Hl]. unfold dispatch.
  split; [apply effects_cadence, Hc|].
  destruct (effects_sameRun s (handle s e)) as (_ & _ & _ & _ & _ & _ & _ & _ & Ho).
  rewrite Ho. exact Hl.
Qed.

Lemma run_orderly (evs : list event) (s : State) : orderly s -> orderly (run s evs).
Proof.
  revert s. induction evs as [|e evs IH]; intros s H; [exact H|].
  cbn [run fold_left]. apply IH, dispatch_orderly, H.
Qed.

(** X10.  In every state reached from a mounted component the live
    obstacles are listed strictly from left to right, oldest first, and
    all of them are left of the spawn point 800; the speed that moves them
    is at least 3.5. *)
Theorem obstacles_left_to_right (stored : option string) (evs : list event) :
  let s := run (mount stored) evs in
  leftToRight (obstacles s) /\ 3.5 <= baseSpeed (frameCount s + 1).
Proof.
  intro s.
  assert (H : orderly s).
  { apply run_orderly. split; [apply mount_cadence|].
    destruct (mount_sameRun stored) as (_ & _ & _ & _ & _ & _ & _ & _ & Ho).
    rewrite Ho. split; constructor. }
  destruct H as [(Hf & _) Hl].
  split; [exact Hl|apply baseSpeed_min; lia].
Qed.

(** ** The background offset *)

Lemma Qtrunc_floor (q : Q) : 0 <= q -> Qtrunc q = Qfloor q.
Proof.
  destruct q as [n d]. unfold Qle, Qtrunc, Qfloor. cbn [Qnum Qden].
  intro H. apply Z.quot_div_nonneg; lia.
Qed.

Lemma Qrem_range (a b : Q) : 0 <= a -> 0 < b -> 0 <= Qrem a b /\ Qrem a b < b.
Proof.
  intros Ha Hb. unfold Qrem.
  assert (Hq : 0 <= a / b) by (apply Qle_shift_div_l; [exact Hb|lra]).
  rewrite (Qtrunc_floor _ Hq).
  pose proof (Qfloor_le (a / b)) as Hlo.
  pose proof (Qlt_floor (a / b)) as Hhi.
  rewrite inject_Z_plus in Hhi. change (inject_Z 1) with 1 in Hhi.
  assert (E : a == b * (a / b)) by (symmetry; apply Qmult_div_r; lra).
  set (q := a / b) in *. set (f := inject_Z (Qfloor q)) in *.
  split; nra.
Qed.

Lemma gameLoop_bgOffset (s : State) (rand : Q) :
  (0 <= frameCount s)%Z -> 0 <= bgOffset s < 800 ->
  0 <= bgOffset (gameLoop s rand) < 800.
Proof.
  intros Hf Hb. unfold gameLoop. destruct (paused s); [exact Hb|].
  destruct (integrate _ _) as [y v]. destruct (spawn _ _ _) as [[o l] c].
  cbn [bgOffset]. rewrite Qred_correct.
  pose proof (baseSpeed_min (frameCount s + 1) ltac:(lia)).
  apply Qrem_range; lra.
Qed.

Lemma dispatch_scrolling (s : State) (e : event) :
  scrolling s -> scrolling (dispatch s e).
Proof.
  intros [Hc Hb]. unfold dispatch.
  split; [apply effects_cadence, handle_cadence, Hc|].
  destruct (effects_sameRun s (handle s e)) as (_ & _ & _ & _ & Ho & _).
  rewrite Ho.
  destruct e as [| |d| |rand]; cbn [handle].
  - exact Hb.
  - unfold jump. case_ifs; exact Hb.
  - unfold setDuck. case_ifs; exact Hb.
  - unfold togglePause. case_ifs; exact Hb.
  - destruct (gameStarted s && negb (gameOver s)); [|exact Hb].
    apply gameLoop_bgOffset; [apply Hc|exact Hb].
Qed.

Lemma run_scrolling (evs : list event) (s : State) :
  scrolling s -> scrolling (run s evs).
Proof.
  revert s. induction evs as [|e evs IH]; intros s H; [exact H|].
  cbn [run fold_left]. apply IH, dispatch_scrolling, H.
Qed.

(** X11.  The background offset wraps: in every state reached from a
    mounted component it is at least 0 and below the period 800, and it
    survives restarts unchanged. *)
Theorem background_offset_wraps (stored : option string) (evs : list event) :
  let s := run (mount stored) evs in
  0 <= bgOffset s < 800 /\ bgOffset (dispatch s StartGame) = bgOffset s.
Proof.
  intro s. split.
  - apply run_scrolling. split; [apply mount_cadence|].
    destruct (mount_sameRun stored) as (_ & _ & _ & _ & Hb & _).
    rewrite Hb. cbn. lra.
  - apply dispatch_StartGame_fields.
Qed.

(** ** The high score in memory *)

Lemma numLe_refl (a : number) : numLe a a.
Proof. destruct a; cbn; [lia|exact I]. Qed.

Lemma numLe_trans (a b c : number) : numLe a b -> numLe b c -> numLe a c.
Proof. destruct a, b, c; cbn; try tauto; lia. Qed.

Lemma trackHighScore_high (s : State) :
  agree s ->
  agree (trackHighScore s) /\
  numLe (highScore s) (highScore (trackHighScore s)) /\
  covers (trackHighScore s).
Proof.
  unfold agree, covers. intro Ha.
  assert (Hr : gameStarted (trackHighScore s) = gameStarted s /\
               score (trackHighScore s) = score s).
  { destruct (trackHighScore_sameRun s) as (H1 & _ & _ & H4 & _).
    split; assumption. }
  destruct Hr as [Hg Hs]. rewrite Hg, Hs.
  destruct (newHighScore s) eqn:F.
  - destruct (trackHighScore_fire s F) as (_ & Hh & Hl & _).
    rewrite Hh, Hl. split; [reflexivity|]. split.
    + unfold newHighScore in F. rewrite Ha in F.
      destruct (highScore s) as [h|]; cbn [gt] in F;
        [|rewrite andb_false_r in F; discriminate].
      apply andb_prop in F. destruct F as [F _].
      apply andb_prop in F. destruct F as [_ F].
      apply Z.ltb_lt in F. cbn. lia.
    + intros _ _ h E. injection E as E. lia.
  - destruct (trackHighScore_quiet s F) as (_ & Hh & Hl).
    rewrite Hh, Hl. split; [exact Ha|]. split; [apply numLe_refl|].
    intros Hst H100 h E. unfold newHighScore in F.
    rewrite Hst, Ha, E in F. cbn [gt andb] in F.
    apply Z.ltb_lt in H100. rewrite H100, andb_true_r in F.
    apply Z.ltb_ge in F. exact F.
Qed.

Lemma number_eqb_eq (a b : number) : number_eqb a b = true -> a = b.
Proof.
  destruct a, b; cbn; try discriminate; [|reflexivity].
  intro H. apply Z.eqb_eq in H. congruence.
Qed.

(** The high-score bookkeeping through the effects that follow a
    handler. *)
Lemma effects_tracked (old new : State) :
  agree new -> (trackDepsChanged old new = false -> covers new) ->
  tracked (effects old new) /\
  numLe (highScore new) (highScore (effects old new)).
Proof.
  intros Ha Hc.
  assert (Ht : exists t : State,
             agree t /\ covers t /\ numLe (highScore new) (highScore t) /\
             effects old new
             = (if loopDepsChanged old new then gameLoopEffect t else t)).
  { unfold effects, trackRuns.
    destruct (trackDepsChanged old new) eqn:D.
    - destruct (trackHighScore_high new Ha) as (A1 & A2 & A3).
      destruct (number_eqb _ _); cbn [fold_left].
      + exists (trackHighScore new). repeat split; assumption.
      + destruct (trackHighScore_high _ A1) as (B1 & B2 & B3).
        exists (trackHighScore (trackHighScore new)).
        split; [exact B1|]. split; [exact B3|].
        split; [eapply numLe_trans; eassumption|reflexivity].
    - exists new. cbn [fold_left].
      split; [exact Ha|]. split; [apply Hc; reflexivity|].
      split; [apply numLe_refl|reflexivity]. }
  destruct Ht as (t & T1 & T2 & T3 & E). rewrite E.
  destruct (loopDepsChanged old new); [|repeat split; assumption].
  destruct (gameLoopEffect_sameHigh t) as (H1 & H2 & _).
  destruct (gameLoopEffect_sameRun t) as (G1 & _ & _ & G4 & _).
  unfold tracked, agree, covers. rewrite H1, H2, G1, G4.
  repeat split; assumption.
Qed.

Lemma handle_high (s : State) (e : event) :
  highScore (handle s e) = highScore s /\
  lastHighScore (handle s e) = lastHighScore s /\
  storage (handle s e) = storage s.
Proof.
  destruct e as [| |d| |rand]; cbn [handle].
  - repeat split; reflexivity.
  - unfold jump. case_ifs; repeat split; reflexivity.
  - unfold setDuck. case_ifs; repeat split; reflexivity.
  - unfold togglePause. case_ifs; repeat split; reflexivity.
  - destruct (gameStarted s && negb (gameOver s)); [|repeat split; reflexivity].
    destruct (paused s) eqn:Hp.
    + rewrite (gameLoop_paused s rand Hp). repeat split; reflexivity.
    + destruct (gameLoop_unpaused s rand Hp)
        as (_ & _ & _ & _ & _ & _ & _ & _ & _ & H1 & H2 & _ & H4).
      repeat split; assumption.
Qed.

Lemma effects_deps_unchanged (old new : State) :
  trackDepsChanged old new = false ->
  score new = score old /\ gameStarted new = gameStarted old.
Proof.
  unfold trackDepsChanged. intro H. apply negb_false_iff in H.
  apply andb_prop in H. destruct H as [H _].
  apply andb_prop in H. destruct H as [H1 H2].
  apply Z.eqb_eq in H1. apply Bool.eqb_prop in H2. split; congruence.
Qed.

Lemma dispatch_tracked (s : State) (e : event) :
  tracked s ->
  tracked (dispatch s e) /\ numLe (highScore s) (highScore (dispatch s e)).
Proof.
  intros [Ha Hc]. destruct (handle_high s e) as (Hh & Hl & _).
  unfold dispatch. rewrite <- Hh. apply effects_tracked.
  - unfold agree. congruence.
  - intro D. destruct (effects_deps_unchanged _ _ D) as (Es & Eg).
    unfold covers. rewrite Es, Eg, Hh. exact Hc.
Qed.

Lemma run_tracked (evs : list event) (s : State) :
  tracked s -> tracked (run s evs) /\ numLe (highScore s) (highScore (run s evs)).
Proof.
  revert s. induction evs as [|e evs IH]; intros s H.
  - split; [exact H|apply numLe_refl].
  - cbn [run fold_left]. destruct (dispatch_tracked s e H) as [H1 H2].
    destruct (IH _ H1) as [H3 H4].
    split; [exact H3|eapply numLe_trans; eassumption].
Qed.

Lemma mount_tracked (stored : option string) : tracked (mount stored).
Proof.
  unfold mount.
  assert (Hl : agree (loadHighScore (initial stored))).
  { unfold agree, loadHighScore, initial. cbn [storage].
    destruct stored as [v|]; [destruct (JS.truthy (Some v))|]; reflexivity. }
  destruct (trackHighScore_high _ Hl) as (A1 & _ & A3).
  apply effects_tracked; [exact A1|intros _; exact A3].
Qed.

(** X12.  The high score in memory only goes up.  In every state reached
    from a mounted component the ref and the state cell hold the same
    value, no event lowers it, and while the game is started with a score
    above 100 a numeric high score is at least the score. *)
Theorem high_score_monotone (stored : option string) (evs : list event) (e : event) :
  let s := run (mount stored) evs in
  lastHighScore s = highScore s /\
  numLe (highScore (mount stored)) (highScore s) /\
  numLe (highScore s) (highScore (dispatch s e)) /\
  (gameStarted s = true -> (100 < score s)%Z ->
   forall h : Z, highScore s = Num h -> (score s <= h)%Z).
Proof.
  intro s.
  destruct (run_tracked evs _ (mount_tracked stored)) as [[Ha Hc] Hm].
  fold s in Ha, Hc, Hm.
  destruct (dispatch_tracked s e (conj Ha Hc)) as [_ Hd].
  repeat split; assumption.
Qed.

Lemma high_score_monotone_witness :
  (score (run (mount (Some "50"%string)) (StartGame :: duckingRun 120)) <= 120)%Z.
Proof.
  destruct (high_score_monotone (Some "50"%string) (StartGame :: duckingRun 120) Jump)
    as (_ & _ & _ & H).
  apply H; vm_compute; reflexivity.
Defined.

(** ** The jump arc *)

Lemma arc_step (k : Z) :
  arcY k + (arcV k - 0.7) == arcY (k + 1) /\ arcV k - 0.7 == arcV (k + 1).
Proof.
  unfold arcY, arcV. rewrite inject_Z_plus. change (inject_Z 1) with 1.
  split; ring.
Qed.

Lemma arc_facts (k : Z) :
  (1 <= k <= 36)%Z ->
  0 < arcY k /\ arcY k <= 114.3 /\ -12.2 <= arcV k /\ arcV k <= 12.3 /\
  (36 <= arcY k <-> (4 <= k <= 33)%Z) /\
  (111 <= arcY k <-> (15 <= k <= 21)%Z).
Proof.
  intro Hk.
  assert (T : arcTable = true) by (vm_compute; reflexivity).
  unfold arcTable in T. rewrite forallb_forall in T.
  specialize (T (Z.to_nat k)). rewrite Z2Nat.id in T by lia.
  cbv zeta in T.
  assert (Hin : In (Z.to_nat k) (seq 1 36)) by (apply in_seq; lia).
  specialize (T Hin).
  apply andb_prop in T. destruct T as [T T6].
  apply andb_prop in T. destruct T as [T T5].
  apply andb_prop in T. destruct T as [T T4].
  apply andb_prop in T. destruct T as [T T3].
  apply andb_prop in T. destruct T as [T1 T2].
  apply Bool.eqb_prop in T5, T6.
  split; [apply Qltb_lt, T1|].
  split; [apply Qle_bool_iff, T2|].
  split; [apply Qle_bool_iff, T3|].
  split; [apply Qle_bool_iff, T4|].
  split; rewrite <- Qle_bool_iff; [rewrite T5|rewrite T6];
    rewrite andb_true_iff, !Z.leb_le; tauto.
Qed.

Lemma arcY_0 : arcY 0 == 0.
Proof. vm_compute. reflexivity. Qed.

Lemma arcV_0 : arcV 0 == 13.
Proof. vm_compute. reflexivity. Qed.

Lemma arcY_37 : arcY 37 <= 0.
Proof. apply Qle_bool_iff. vm_compute. reflexivity. Qed.

Lemma arcY_pos_next (k : Z) : (0 <= k <= 35)%Z -> 0 < arcY (k + 1).
Proof. intro H. apply arc_facts. lia. Qed.

(** One frame of physics along the arc. *)
Lemma integrate_arc (k : Z) (y v : Q) :
  (0 <= k <= 36)%Z -> y == arcY k -> v == arcV k ->
  ((k <= 35)%Z ->
   fst (integrate y v) == arcY (k + 1) /\ snd (integrate y v) == arcV (k + 1)) /\
  (k = 36%Z -> integrate y v = (0, 0)).
Proof.
  intros Hk Hy Hv. destruct (arc_step k) as [Sy Sv]. split.
  - intro H35. pose proof (arcY_pos_next k ltac:(lia)) as Hpos.
    assert (Hair : 0 < y + (v - 0.7)) by (rewrite Hy, Hv, Sy; exact Hpos).
    destruct (integrate_airborne y v Hair) as [A B].
    rewrite A, B, Hy, Hv. split; assumption.
  - intro E. subst k. apply integrate_clamped.
    rewrite Hy, Hv, Sy. exact arcY_37.
Qed.

Lemma integrate_rest (y v : Q) : y == 0 -> v == 0 -> integrate y v = (0, 0).
Proof. intros Hy Hv. apply integrate_clamped. rewrite Hy, Hv. lra. Qed.

Lemma dispatch_frame_player (s : State) (rand : Q) :
  gameStarted s = true -> gameOver s = false -> paused s = false ->
  playerY (dispatch s (Frame rand)) = fst (integrate (playerY s) (velocity s)) /\
  velocity (dispatch s (Frame rand)) = snd (integrate (playerY s) (velocity s)) /\
  gameStarted (dispatch s (Frame rand)) = true /\
  paused (dispatch s (Frame rand)) = false.
Proof.
  intros Hg Ho Hp.
  destruct (dispatch_sameRun s (Frame rand)) as (H1 & _ & H3 & _ & _ & H6 & H7 & _).
  rewrite H1, H3, H6, H7. cbn [handle]. rewrite Hg, Ho. cbn [negb andb].
  destruct (gameLoop_player s rand Hp) as [A B].
  destruct (gameLoop_unpaused s rand Hp) as (_ & _ & _ & _ & _ & _ & C & D & _).
  rewrite A, B, C, D, Hg. repeat split; reflexivity.
Qed.

Lemma noStart_frames (rands : list Q) : noStart (map Frame rands) = true.
Proof. induction rands as [|r rs IH]; [reflexivity|exact IH]. Qed.

Lemma frames_along_arc (rands : list Q) (s : State) (j : Z) :
  gameStarted s = true -> paused s = false ->
  (0 <= j <= 36)%Z -> (j + Z.of_nat (List.length rands) <= 37)%Z ->
  playerY s == arcY j -> velocity s == arcV j ->
  let s' := run s (map Frame rands) in
  gameOver s' = false ->
  ((j + Z.of_nat (List.length rands) <= 36)%Z ->
   playerY s' == arcY (j + Z.of_nat (List.length rands)) /\
   velocity s' == arcV (j + Z.of_nat (List.length rands))) /\
  ((j + Z.of_nat (List.length rands) = 37)%Z -> playerY s' = 0 /\ velocity s' = 0).
Proof.
  revert s j. induction rands as [|r rs IH]; intros s j Hg Hp Hj Hlen Hy Hv s' Ho.
  - cbn [List.length Z.of_nat] in *. subst s'. cbn [map run fold_left] in *.
    rewrite Z.add_0_r. split; [intros _; split; assumption|lia].
  - subst s'. cbn [map run fold_left List.length] in *.
    fold (run (dispatch s (Frame r)) (map Frame rs)) in *.
    assert (Ho0 : gameOver s = false).
    { destruct (gameOver s) eqn:E; [|reflexivity].
      rewrite (dispatch_over s (Frame r) E eq_refl) in Ho.
      rewrite (run_over _ s E (noStart_frames rs)) in Ho. congruence. }
    assert (Ho1 : gameOver (dispatch s (Frame r)) = false).
    { destruct (gameOver (dispatch s (Frame r))) eqn:E; [|reflexivity].
      rewrite (run_over _ _ E (noStart_frames rs)) in Ho. congruence. }
    destruct (dispatch_frame_player s r Hg Ho0 Hp) as (Py & Pv & Pg & Pp).
    destruct (integrate_arc j _ _ Hj Hy Hv) as [Hfly Hland].
    rewrite Nat2Z.inj_succ in *.
    destruct (Z.eq_dec j 36) as [E36|N36].
    + assert (rs = []) by (destruct rs; [reflexivity|cbn [List.length] in Hlen; lia]).
      subst rs. cbn [map run fold_left List.length Z.of_nat] in *.
      rewrite Py, Pv, (Hland E36). cbn [fst snd].
      split; [lia|intros _; split; reflexivity].
    + destruct (Hfly ltac:(lia)) as [Fy Fv].
      rewrite <- Py in Fy. rewrite <- Pv in Fv.
      replace (j + Z.succ (Z.of_nat (List.length rs)))%Z
        with (j + 1 + Z.of_nat (List.length rs))%Z by lia.
      apply (IH (dispatch s (Frame r)) (j + 1)%Z); try assumption; lia.
Qed.

(** ** The arc in binary64 *)

Lemma arc64_near (j : Z) :
  (1 <= j <= 36)%Z ->
  exists y v : float,
    nth_error (arc64 37 (0%float, 13%float)) (Z.to_nat (j - 1)) = Some (y, v) /\
    within 0.000001 y (arcY j) = true /\ within 0.000001 v (arcV j) = true.
Proof.
  intro Hj.
  assert (T : arcTable64 = true) by (vm_compute; reflexivity).
  unfold arcTable64 in T. rewrite forallb_forall in T.
  specialize (T (Z.to_nat j)).
  replace (Nat.pred (Z.to_nat j)) with (Z.to_nat (j - 1)) in T by lia.
  rewrite Z2Nat.id in T by lia.
  assert (Hin : In (Z.to_nat j) (seq 1 36)) by (apply in_seq; lia).
  specialize (T Hin).
  destruct (nth_error _ _) as [[y v]|]; [|discriminate].
  apply andb_prop in T. destruct T as [T1 T2].
  exists y, v. repeat split; assumption.
Qed.

Lemma arc64_lands :
  nth_error (arc64 37 (0%float, 13%float)) 36 = Some (0%float, 0%float).
Proof. vm_compute. reflexivity. Qed.

(** X13.  The jump arc.  After a jump from the ground in a running game,
    as long as no collision ends the game, the player is after
    k = 1..36 ticks at height 12.65 k - 0.35 k^2 with velocity
    13 - 0.7 k, and back on the ground at rest after the 37th.  The
    source computes the arc in binary64, so the statement carries a
    margin: height and velocity are within one millionth of those values,
    the height is positive and below 114.4 (the top, at tick 18, is 114.3
    up to rounding), it is at least 36, clear of a low obstacle, exactly
    on ticks 4 to 33, at least 111, clear of a high obstacle, on ticks 16
    to 21 and on no tick outside 15 to 21.  The last two parts are the
    same arc computed in binary64 from height 0 and velocity 13: each of
    its 36 airborne states is within one millionth of the exact one and
    the 37th state is the ground at rest. *)
Theorem jump_arc (s : State) (rands : list Q) :
  gameStarted s = true -> gameOver s = false -> paused s = false ->
  isDucking s = false -> playerY s == 0 ->
  let k := Z.of_nat (List.length rands) in
  let s' := run (dispatch s Jump) (map Frame rands) in
  gameOver s' = false ->
  ((1 <= k <= 36)%Z ->
   arcY k - 0.000001 <= playerY s' <= arcY k + 0.000001 /\
   arcV k - 0.000001 <= velocity s' <= arcV k + 0.000001 /\
   0 < playerY s' < 114.4 /\
   (36 <= playerY s' <-> (4 <= k <= 33)%Z) /\
   ((16 <= k <= 21)%Z -> 111 <= playerY s') /\
   (111 <= playerY s' -> (15 <= k <= 21)%Z)) /\
  (k = 37%Z -> playerY s' = 0 /\ velocity s' = 0) /\
  (forall j : Z,
      (1 <= j <= 36)%Z ->
      exists y v : float,
        nth_error (arc64 37 (0%float, 13%float)) (Z.to_nat (j - 1)) = Some (y, v) /\
        within 0.000001 y (arcY j) = true /\ within 0.000001 v (arcV j) = true) /\
  nth_error (arc64 37 (0%float, 13%float)) 36 = Some (0%float, 0%float).
Proof.
  intros Hg Ho Hp Hd Hy k s' Hover.
  assert (Hj : dispatch s Jump = set_velocity 13 s).
  { rewrite (dispatch_jump_active s Hg Ho), (jump_active s Hg Ho), Hd.
    apply Qeq_bool_iff in Hy. rewrite Hy. reflexivity. }
  subst s'. rewrite Hj in *.
  assert (Hy0 : playerY (set_velocity 13 s) == arcY 0)
    by (cbn [set_velocity playerY]; rewrite Hy; symmetry; exact arcY_0).
  assert (Hv0 : velocity (set_velocity 13 s) == arcV 0)
    by (cbn [set_velocity velocity]; symmetry; exact arcV_0).
  assert (H0 : (0 <= 0 <= 36)%Z) by lia.
  split; [|split; [|split; [exact arc64_near|exact arc64_lands]]]; intro Hk.
  - assert (Hlen : (0 + k <= 37)%Z) by lia.
    destruct (frames_along_arc rands (set_velocity 13 s) 0 Hg Hp H0 Hlen Hy0 Hv0 Hover)
      as [H _].
    rewrite Z.add_0_l in H. fold k in H.
    destruct (H ltac:(lia)) as [Ay Av].
    destruct (arc_facts k Hk) as (F1 & F2 & _ & _ & F5 & F6).
    rewrite Ay, Av.
    split; [split; lra|]. split; [split; lra|]. split; [split; lra|].
    split; [exact F5|]. split.
    + intro H16. apply F6. lia.
    + intro H111. apply F6. exact H111.
  - assert (Hlen : (0 + k <= 37)%Z) by lia.
    destruct (frames_along_arc rands (set_velocity 13 s) 0 Hg Hp H0 Hlen Hy0 Hv0 Hover)
      as [_ H].
    apply H. fold k. lia.
Qed.

Lemma jump_arc_witness :
  111 <= playerY (run (dispatch standing Jump) (map Frame (repeat 0.6 18))) /\
  velocity (run (dispatch standing Jump) (map Frame (repeat 0.6 37))) = 0.
Proof.
  assert (Hy : playerY standing == 0) by reflexivity.
  split.
  - assert (Hover : gameOver (run (dispatch standing Jump)
                                (map Frame (repeat 0.6 18))) = false)
      by (vm_compute; reflexivity).
    destruct (jump_arc standing (repeat 0.6 18) eq_refl eq_refl eq_refl eq_refl
                Hy Hover) as [H _].
    destruct H as (_ & _ & _ & _ & H & _); [vm_compute; split; discriminate|].
    apply H. vm_compute. split; discriminate.
  - assert (Hover : gameOver (run (dispatch standing Jump)
                                (map Frame (repeat 0.6 37))) = false)
      by (vm_compute; reflexivity).
    destruct (jump_arc standing (repeat 0.6 37) eq_refl eq_refl eq_refl eq_refl
                Hy Hover) as (_ & H & _).
    apply H. reflexivity.
Defined.

(** ** Reachable positions of the player *)

Lemma onArc_ground (s : State) :
  onArc s -> playerY s == 0 -> velocity s == 0 \/ velocity s == 13.
Proof.
  intros (k & Hk & Hy & Hv) H0.
  assert (k = 0%Z).
  { destruct (Z.eq_dec k 0) as [E|N]; [exact E|].
    destruct (arc_facts k ltac:(lia)) as (F & _). rewrite <- Hy in F. lra. }
  subst k. destruct Hv as [Hv|[_ Hv]]; [right|left]; [|exact Hv].
  rewrite Hv. exact arcV_0.
Qed.

Lemma integrate_onArc (y v : Q) :
  (exists k : Z, (0 <= k <= 36)%Z /\ y == arcY k /\
                 (v == arcV k \/ (k = 0%Z /\ v == 0))) ->
  exists k : Z, (0 <= k <= 36)%Z /\ fst (integrate y v) == arcY k /\
                (snd (integrate y v) == arcV k \/
                 (k = 0%Z /\ snd (integrate y v) == 0)).
Proof.
  intros (k & Hk & Hy & [Hv|[E Hv]]).
  - destruct (integrate_arc k y v Hk Hy Hv) as [Hfly Hland].
    destruct (Z.eq_dec k 36) as [E36|N36].
    + rewrite (Hland E36). exists 0%Z. cbn [fst snd].
      split; [lia|]. split; [symmetry; exact arcY_0|right; split; reflexivity].
    + destruct (Hfly ltac:(lia)) as [Fy Fv].
      exists (k + 1)%Z. split; [lia|]. split; [exact Fy|left; exact Fv].
  - subst k. rewrite arcY_0 in Hy. rewrite (integrate_rest y v Hy Hv).
    exists 0%Z. cbn [fst snd].
    split; [lia|]. split; [symmetry; exact arcY_0|right; split; reflexivity].
Qed.

Lemma onArc_rest (s : State) : playerY s = 0 -> velocity s = 0 -> onArc s.
Proof.
  intros Hy Hv. exists 0%Z. rewrite Hy, Hv.
  split; [lia|]. split; [symmetry; exact arcY_0|right; split; reflexivity].
Qed.

Lemma handle_onArc (s : State) (e : event) : onArc s -> onArc (handle s e).
Proof.
  intro H. destruct e as [| |d| |rand]; cbn [handle].
  - apply onArc_rest; reflexivity.
  - unfold jump.
    destruct (negb (gameStarted s) && negb (gameOver s));
      [apply onArc_rest; reflexivity|].
    destruct (gameOver s || isDucking s); [exact H|].
    destruct (Qeq_bool (playerY s) 0) eqn:E; [|exact H].
    apply Qeq_bool_iff in E. exists 0%Z. cbn [set_velocity playerY velocity].
    split; [lia|]. split; [rewrite E; symmetry; exact arcY_0|].
    left. symmetry. exact arcV_0.
  - unfold setDuck. case_ifs; exact H.
  - unfold togglePause. case_ifs; exact H.
  - destruct (gameStarted s && negb (gameOver s)); [|exact H].
    destruct (paused s) eqn:Hp.
    + rewrite (gameLoop_paused s rand Hp). exact H.
    + destruct (gameLoop_player s rand Hp) as [A B].
      unfold onArc. rewrite A, B. apply integrate_onArc, H.
Qed.

Lemma dispatch_onArc (s : State) (e : event) : onArc s -> onArc (dispatch s e).
Proof.
  intro H. pose proof (handle_onArc s e H) as H'.
  destruct (dispatch_sameRun s e) as (_ & _ & _ & _ & _ & Hy & Hv & _).
  unfold onArc. rewrite Hy, Hv. exact H'.
Qed.

Lemma run_onArc (evs : list event) (s : State) : onArc s -> onArc (run s evs).
Proof.
  revert s. induction evs as [|e evs IH]; intros s H; [exact H|].
  cbn [run fold_left]. apply IH, dispatch_onArc, H.
Qed.

Lemma onArc_bounds (s : State) :
  onArc s -> 0 <= playerY s <= 114.3 /\ -12.2 <= velocity s <= 13.
Proof.
  intros (k & Hk & Hy & Hv).
  destruct (Z.eq_dec k 0) as [E|N].
  - subst k. rewrite Hy, arcY_0.
    destruct Hv as [Hv|[_ Hv]]; rewrite Hv, ?arcV_0; repeat split; lra.
  - destruct (arc_facts k ltac:(lia)) as (F1 & F2 & F3 & F4 & _).
    destruct Hv as [Hv|[E _]]; [|contradiction].
    rewrite Hy, Hv. repeat split; lra.
Qed.

Ltac find_in := first [left; reflexivity | right; find_in].

Lemma states64_closed (p : float * float) :
  In p states64 ->
  In (integrate64 (fst p) (snd p)) states64 /\
  inBounds64 p = true /\
  ((fst p =? 0)%float = true -> In (fst p, 13%float) states64).
Proof.
  intro Hin. vm_compute in Hin.
  repeat (destruct Hin as [Hin|Hin];
          [subst p; split; [vm_compute; find_in|];
           split; [vm_compute; reflexivity|];
           vm_compute; intro H; first [discriminate | find_in]|]).
  contradiction.
Qed.

(** X14.  Whatever the sequence of events, the player never leaves the
    arc of a single jump: the height is at least 0 and below 114.4, the
    velocity above -12.3 and at most 13, on the ground the velocity is
    either 0 or the impulse 13 of a jump request that the next tick will
    carry out, and a jump request in the air changes nothing.  The bounds
    carry a margin for the binary64 arithmetic of the source, and the last
    part is the same invariant in binary64: the 38 pairs of height and
    velocity listed in [states64] are closed under the integrator and
    under a jump request on the ground, and each satisfies the bounds. *)
Theorem player_stays_on_arc (stored : option string) (evs : list event) :
  let s := run (mount stored) evs in
  0 <= playerY s < 114.4 /\
  -12.3 < velocity s <= 13 /\
  (playerY s == 0 -> velocity s == 0 \/ velocity s == 13) /\
  (0 < playerY s -> gameStarted s = true -> dispatch s Jump = s) /\
  (forall p : float * float,
      In p states64 ->
      In (integrate64 (fst p) (snd p)) states64 /\
      inBounds64 p = true /\
      ((fst p =? 0)%float = true -> In (fst p, 13%float) states64)).
Proof.
  intro s.
  assert (H : onArc s).
  { apply run_onArc.
    destruct (mount_sameRun stored) as (_ & _ & _ & _ & _ & Hy & Hv & _).
    apply onArc_rest; [rewrite Hy|rewrite Hv]; reflexivity. }
  destruct (onArc_bounds s H) as [B1 B2].
  split; [split; lra|]. split; [split; lra|].
  split; [apply onArc_ground, H|].
  split; [|exact states64_closed].
  intros Hpos Hg. destruct (gameOver s) eqn:Ho.
  - apply dispatch_over; [exact Ho|reflexivity].
  - rewrite (dispatch_jump_active s Hg Ho), (jump_active s Hg Ho).
    destruct (isDucking s); [reflexivity|].
    destruct (Qeq_bool (playerY s) 0) eqn:E; [|reflexivity].
    apply Qeq_bool_iff in E. lra.
Qed.

Lemma player_stays_on_arc_witness :
  dispatch (run (mount None) (StartGame :: Jump :: repeat (Frame 0.6) 5)) Jump
  = run (mount None) (StartGame :: Jump :: repeat (Frame 0.6) 5) /\
  In (integrate64 0%float 13%float) states64.
Proof.
  destruct (player_stays_on_arc None (StartGame :: Jump :: repeat (Frame 0.6) 5))
    as (_ & _ & _ & H & H64).
  split.
  - apply H; vm_compute; reflexivity.
  - assert (Hin : In (0%float, 13%float) states64)
      by (vm_compute; right; left; reflexivity).
    destruct (H64 (0%float, 13%float) Hin) as (A & _). exact A.
Defined.

Lemma score_is_frame_counter_witness :
  frameCount (session (mount None)
                [ClickStart; Tick 0.5; KeyDown Space; Tick 0.5; KeyDown Escape;
                 Tick 0.5])
  = score (session (mount None)
             [ClickStart; Tick 0.5; KeyDown Space; Tick 0.5; KeyDown Escape;
              Tick 0.5]).
Proof.
  apply (score_is_frame_counter None
           [ClickStart; Tick 0.5; KeyDown Space; Tick 0.5; KeyDown Escape; Tick 0.5]).
  vm_compute. reflexivity.
Defined.

(** ** The hit region *)

Lemma hitX_iff (o : Obstacle) : hitX o = true <-> 71 < x o < 129.
Proof.
  unfold hitX, playerX, playerWidth, obsWidth.
  rewrite andb_true_iff, !Qltb_lt. split; intros [H1 H2]; split; lra.
Qed.

(** X15.  The hit region in numbers.  An obstacle overlaps the player
    horizontally exactly while 71 < x < 129.  For a player at height
    y >= 0 it then hits, if it is low, exactly when y < 36, ducking or
    not; if it is high, exactly when y < 111 and the player is either not
    ducking or higher than 19.  So ducking never helps against a low
    obstacle, and only the top of a jump passes over a high one. *)
Theorem hit_region (y : Q) (d : bool) (o : Obstacle) :
  0 <= y ->
  (hits y d o = true <->
   71 < x o < 129 /\
   if isHigh (type o) then y < 111 /\ (d = true -> 19 < y) else y < 36) /\
  (isHigh (type o) = false -> hits y true o = hits y false o).
Proof.
  intro Hy.
  assert (Hiff : forall d', hits y d' o = true <->
            71 < x o < 129 /\
            if isHigh (type o) then y < 111 /\ (d' = true -> 19 < y) else y < 36).
  { intro d'. unfold hits. rewrite andb_true_iff, hitX_iff.
    destruct (isHigh (type o)) eqn:Hh.
    - rewrite (hitY_high y d' o Hh).
      destruct d'; cbn [playerHeight]; split;
        intros (Hx & H1 & H2); try specialize (H2 eq_refl);
        repeat split; try apply Hx; try lra; try discriminate.
    - rewrite (hitY_low y d' o Hh).
      destruct d'; cbn [playerHeight]; split;
        intros (Hx & H); repeat split; try apply Hx; lra. }
  split; [apply Hiff|].
  intro Hl.
  destruct (hits y true o) eqn:E1, (hits y false o) eqn:E2; try reflexivity.
  - apply Hiff in E1. rewrite Hl in E1.
    assert (E : hits y false o = true) by (apply Hiff; rewrite Hl; exact E1).
    congruence.
  - apply Hiff in E2. rewrite Hl in E2.
    assert (E : hits y true o = true) by (apply Hiff; rewrite Hl; exact E2).
    congruence.
Qed.

Lemma hit_region_witness :
  hits 112.8 false {| x := 100; type := temple |} = false /\
  hits 30 true {| x := 100; type := statue |} = true.
Proof.
  split.
  - destruct (hit_region 112.8 false {| x := 100; type := temple |}) as [H _];
      [lra|].
    apply not_true_is_false. intro E. apply H in E. cbn in E. lra.
  - destruct (hit_region 30 true {| x := 100; type := statue |}) as [H _];
      [lra|].
    apply H. cbn. repeat split; lra.
Defined.

(** ** The stored high score is read back *)

Lemma digits_acc (u : Decimal.uint) (acc : positive) :
  JS.digits 10 (Some (Z.pos acc)) (NilEmpty.string_of_uint u)
  = Some (Z.pos (Pos.of_uint_acc u acc)).
Proof.
  revert acc. induction u; intro acc; cbn [NilEmpty.string_of_uint JS.digits];
    [reflexivity|..];
    match goal with
    | |- context [JS.digitVal ?c] =>
        let v := eval vm_compute in (JS.digitVal c) in
        change (JS.digitVal c) with v
    end;
    cbn [Z.ltb Z.compare Pos.compare Pos.compare_cont];
    cbn [Pos.of_uint_acc]; rewrite <- IHu; do 3 f_equal; lia.
Qed.

Lemma digits_zero (u : Decimal.uint) :
  JS.digits 10 (Some 0%Z) (NilEmpty.string_of_uint u)
  = Some (Z.of_N (Pos.of_uint u)).
Proof.
  induction u; cbn [NilEmpty.string_of_uint JS.digits];
    [reflexivity|..];
    match goal with
    | |- context [JS.digitVal ?c] =>
        let v := eval vm_compute in (JS.digitVal c) in
        change (JS.digitVal c) with v
    end;
    cbn [Z.ltb Z.compare Pos.compare Pos.compare_cont Z.mul Z.add];
    [exact IHu|..]; rewrite digits_acc; reflexivity.
Qed.

Lemma digits_start (u : Decimal.uint) :
  u <> Decimal.Nil ->
  JS.digits 10 None (NilEmpty.string_of_uint u)
  = JS.digits 10 (Some 0%Z) (NilEmpty.string_of_uint u).
Proof.
  intro H. destruct u; [contradiction|..]; reflexivity.
Qed.

Lemma parseInt_uint (u : Decimal.uint) :
  u <> Decimal.Nil ->
  JS.parseInt (NilEmpty.string_of_uint u) = Num (Z.of_N (Pos.of_uint u)) /\
  JS.parseInt (String "-" (NilEmpty.string_of_uint u))
  = Num (- Z.of_N (Pos.of_uint u)).
Proof.
  intro H.
  assert (E : JS.digits 10 None (NilEmpty.string_of_uint u)
              = Some (Z.of_N (Pos.of_uint u)))
    by (rewrite (digits_start u H); apply digits_zero).
  destruct u as [|u|u|u|u|u|u|u|u|u|u]; [contradiction|..];
    try (split; unfold JS.parseInt;
         cbn -[JS.digits Z.of_N Pos.of_uint Z.opp];
         cbn [NilEmpty.string_of_uint] in E; rewrite E; reflexivity).
  destruct u; split; unfold JS.parseInt;
    cbn -[JS.digits Z.of_N Pos.of_uint Z.opp];
    cbn [NilEmpty.string_of_uint] in E; rewrite E; reflexivity.
Qed.

Lemma parseInt_toString (n : Z) : JS.parseInt (JS.toString n) = Num n.
Proof.
  unfold JS.toString. destruct n as [|p|p]; [reflexivity|..];
    cbn [Z.to_int NilZero.string_of_int];
    pose proof (DecimalPos.Unsigned.to_uint_nonnil p) as Hn;
    pose proof (DecimalPos.Unsigned.of_to p) as Hp;
    destruct (parseInt_uint (Pos.to_uint p) Hn) as [P1 P2];
    unfold NilZero.string_of_uint;
    destruct (Pos.to_uint p) eqn:E; try contradiction;
    rewrite ?P1, ?P2, Hp; reflexivity.
Qed.

Lemma toString_truthy (n : Z) : JS.truthy (Some (JS.toString n)) = true.
Proof.
  unfold JS.toString. destruct n as [|p|p]; [reflexivity| |reflexivity].
  cbn [Z.to_int NilZero.string_of_int]. unfold NilZero.string_of_uint.
  pose proof (DecimalPos.Unsigned.to_uint_nonnil p) as Hn.
  destruct (Pos.to_uint p); try contradiction; reflexivity.
Qed.

Lemma effects_score_zero (old new : State) :
  score new = 0%Z -> sameHigh (effects old new) new.
Proof.
  intro H. unfold effects, trackRuns.
  rewrite (trackHighScore_zero new H), number_eqb_refl.
  assert (E : fold_left (fun _ s => trackHighScore s)
                (if trackDepsChanged old new then [new] else []) new = new).
  { destruct (trackDepsChanged old new); cbn [fold_left];
      [apply (trackHighScore_zero new H)|reflexivity]. }
  rewrite E. destruct (loopDepsChanged old new).
  - apply gameLoopEffect_sameHigh.
  - unfold sameHigh. repeat split; reflexivity.
Qed.

Lemma mount_reads (v : string) :
  JS.truthy (Some v) = true ->
  highScore (mount (Some v)) = JS.parseInt v /\
  lastHighScore (mount (Some v)) = JS.parseInt v /\
  storage (mount (Some v)) = Some v.
Proof.
  intro Ht. unfold mount.
  assert (Hs : score (loadHighScore (initial (Some v))) = 0%Z)
    by apply loadHighScore_sameRun.
  rewrite (trackHighScore_zero _ Hs).
  destruct (effects_score_zero (initial (Some v)) _ Hs) as (H1 & H2 & _ & H4).
  rewrite H1, H2, H4. unfold loadHighScore, initial. cbn [storage].
  rewrite Ht. repeat split; reflexivity.
Qed.

(** X16.  What the game writes it reads back.  For every integer n of
    absolute value at most 2^53, the range in which the numbers of the
    source are exact integers printed in plain decimal digits, the text
    the high-score effect stores for n, n.toString(), is parsed by the
    load effect to n again, and a component mounted over a store holding
    that text starts with n as its high score; so when a tick signals a
    new high score, a component mounted later over the resulting store
    starts with that score as its high score. *)
Theorem stored_high_score_round_trip (n : Z) (s : State) (rand : Q) :
  ((- 9007199254740992 <= n <= 9007199254740992)%Z ->
   JS.parseInt (JS.toString n) = Num n /\
   highScore (mount (Some (JS.toString n))) = Num n) /\
  (processed s (Frame rand) = true ->
   gt (Num (score s + 1)) (lastHighScore s) = true -> (100 < score s + 1)%Z ->
   (score s + 1 <= 9007199254740992)%Z ->
   highScore (mount (storage (dispatch s (Frame rand)))) = Num (score s + 1)).
Proof.
  split.
  - intros _. split; [apply parseInt_toString|].
    destruct (mount_reads _ (toString_truthy n)) as (H & _).
    rewrite H. apply parseInt_toString.
  - intros Hpr Hgt H100 _.
    destruct (dispatch_frame_track s rand Hpr) as ((_ & _ & _ & Hst) & Hs & Hn).
    apply Z.ltb_lt in H100. rewrite Hgt, H100 in Hn.
    destruct (trackHighScore_fire _ Hn) as (_ & _ & _ & Fs).
    destruct (processed_frame s rand Hpr) as (_ & _ & Hp).
    destruct (gameLoop_unpaused s rand Hp) as (_ & _ & _ & _ & Hs1 & _).
    rewrite Hst, Fs, Hs1.
    destruct (mount_reads _ (toString_truthy (score s + 1))) as (H & _).
    rewrite H. apply parseInt_toString.
Qed.

Lemma stored_high_score_round_trip_witness :
  JS.parseInt (JS.toString 9007199254740992) = Num 9007199254740992 /\
  highScore (mount (storage (dispatch (run stored50 (duckingRun 100)) (Frame 0.6))))
  = Num 101.
Proof.
  destruct (stored_high_score_round_trip 9007199254740992
              (run stored50 (duckingRun 100)) 0.6) as (H1 & H2).
  split.
  - apply H1. lia.
  - assert (E : score (run stored50 (duckingRun 100)) = 100%Z)
      by (vm_compute; reflexivity).
    rewrite E in H2. apply H2; vm_compute; first [reflexivity | discriminate].
Defined.

(** ** No run ends before its 223rd tick *)

Lemma travelled_succ (f : Z) :
  (0 <= f)%Z ->
  travelled (Z.to_nat (f + 1))
  = travelled (Z.to_nat f)
    + (if (41 <=? f + 1)%Z then baseSpeed (f + 1) else 0).
Proof.
  intro H. replace (Z.to_nat (f + 1)) with (S (Z.to_nat f)) by lia.
  cbn [travelled]. replace (Z.of_nat (S (Z.to_nat f))) with (f + 1)%Z by lia.
  reflexivity.
Qed.

Lemma travelled_mono (n m : nat) : (n <= m)%nat -> travelled n <= travelled m.
Proof.
  induction 1 as [|m Hle IH]; [lra|].
  cbn [travelled]. destruct (41 <=? Z.of_nat (S m))%Z; [|lra].
  pose proof (baseSpeed_min (Z.of_nat (S m)) ltac:(lia)). lra.
Qed.

Lemma travelled_222 : travelled 222 <= 671.
Proof. apply Qle_bool_iff. vm_compute. reflexivity. Qed.

Lemma sameLoop_in_run (s : State) (e : event) :
  gameStarted s = true -> isStart e = false ->
  sameLoop (dispatch s e) (handle s e).
Proof.
  intros Hg He.
  destruct (handle_in_run s e Hg He) as (Hg' & _ & Ho').
  unfold dispatch.
  destruct (effects_shape s (handle s e)) as (t & R & L & E).
  rewrite E. unfold loopDepsChanged. rewrite Hg', Hg. cbn [Bool.eqb andb].
  destruct (Bool.eqb (gameOver s) (gameOver (handle s e))) eqn:Eo;
    cbn [negb]; [exact L|].
  assert (Hover : gameOver t = true).
  { destruct R as (_ & R2 & _). rewrite R2, Ho'.
    destruct (collides s e); [reflexivity|].
    rewrite Ho', Bool.eqb_reflx in Eo. discriminate. }
  unfold gameLoopEffect. rewrite Hover, orb_true_r. exact L.
Qed.

Lemma early_no_hit (f : Z) (y : Q) (d : bool) (obs : list Obstacle) :
  (0 <= f <= 222)%Z ->
  Forall (fun o => 800 - travelled (Z.to_nat f) <= x o) obs ->
  hasCollision y d obs = false.
Proof.
  intros Hf Hall. apply not_true_is_false. intro Hc.
  apply hasCollision_exists in Hc. destruct Hc as (o & Hin & Hh).
  rewrite Forall_forall in Hall. specialize (Hall o Hin).
  unfold hits in Hh. apply andb_prop in Hh. destruct Hh as [Hx _].
  apply hitX_iff in Hx.
  pose proof (travelled_mono (Z.to_nat f) 222 ltac:(lia)) as Hm.
  pose proof travelled_222. lra.
Qed.

Lemma gameLoop_early (s : State) (rand : Q) :
  gameOver s = false -> paused s = false -> early s -> early (gameLoop s rand).
Proof.
  intros Hov Hp (Hf & Hs & Hl & He & Hall & _).
  destruct (gameLoop_unpaused s rand Hp)
    as (Ef & Eo & El & _ & Es & Eg & _).
  assert (Hv : 3.5 <= baseSpeed (frameCount s + 1))
    by (apply baseSpeed_min; lia).
  assert (Hsp : spawns (frameCount s + 1) (lastObstacleFrame s) = true ->
                (41 <= frameCount s + 1)%Z).
  { intro Sp. destruct Hl as [Hl|Hl]; [|lia].
    rewrite Hl in Sp. apply (spawn_first (frameCount s + 1)); [lia|exact Sp]. }
  assert (Hnew : Forall (fun o => 800 - travelled (Z.to_nat (frameCount s + 1)) <= x o)
                   (obstacles (gameLoop s rand))).
  { rewrite Eo. unfold moveObstacles. apply Forall_forall. intros o Hin.
    apply filter_In in Hin. destruct Hin as [Hin _].
    apply in_map_iff in Hin. destruct Hin as (o0 & E & Hin). subst o.
    cbn [x]. rewrite Qred_correct, (travelled_succ _ Hf).
    unfold spawn in Hin.
    destruct (spawns (frameCount s + 1) (lastObstacleFrame s)) eqn:Sp;
      cbn [fst] in Hin.
    - specialize (Hsp eq_refl). apply Z.leb_le in Hsp. rewrite Hsp.
      apply in_app_or in Hin. destruct Hin as [Hin|[E|[]]].
      + rewrite Forall_forall in Hall. specialize (Hall o0 Hin). lra.
      + subst o0. cbn [x].
        pose proof (travelled_mono 0 (Z.to_nat (frameCount s)) ltac:(lia)) as Hm.
        cbn [travelled] in Hm. lra.
    - destruct (41 <=? frameCount s + 1)%Z eqn:E41.
      + rewrite Forall_forall in Hall. specialize (Hall o0 Hin). lra.
      + apply Z.leb_gt in E41. rewrite He in Hin by lia. destruct Hin. }
  unfold early. rewrite Ef, Es, El.
  split; [lia|]. split; [lia|]. split; [|split; [|split; [exact Hnew|]]].
  - unfold spawn.
    destruct (spawns (frameCount s + 1) (lastObstacleFrame s)) eqn:Sp; cbn [fst snd].
    + right. specialize (Hsp eq_refl). lia.
    + destruct Hl as [Hl|Hl]; [left; exact Hl|right; lia].
  - intro H40. rewrite Eo. unfold spawn.
    destruct (spawns (frameCount s + 1) (lastObstacleFrame s)) eqn:Sp; cbn [fst].
    + specialize (Hsp eq_refl). lia.
    + rewrite He by lia. reflexivity.
  - rewrite Eg, Hov. intro Hc.
    destruct (Z_le_gt_dec (frameCount s + 1) 222) as [Hle|Hgt]; [|lia].
    rewrite (early_no_hit (frameCount s + 1) _ _ _ ltac:(lia) Hnew) in Hc.
    discriminate.
Qed.

Lemma handle_early (s : State) (e : event) :
  gameStarted s = true -> isStart e = false -> early s -> early (handle s e).
Proof.
  intros Hg He H. destruct e as [| |d| |rand]; try discriminate; cbn [handle].
  - rewrite (jump_active_or_over s Hg). case_ifs; exact H.
  - unfold setDuck. case_ifs; exact H.
  - unfold togglePause. case_ifs; exact H.
  - rewrite Hg. cbn [andb]. destruct (gameOver s) eqn:Ho; cbn [negb]; [exact H|].
    destruct (paused s) eqn:Hp.
    + rewrite (gameLoop_paused s rand Hp). exact H.
    + apply gameLoop_early; assumption.
Qed.

Lemma dispatch_early (s : State) (e : event) :
  gameStarted s = true -> isStart e = false -> early s -> early (dispatch s e).
Proof.
  intros Hg He H. pose proof (handle_early s e Hg He H) as H'.
  destruct (sameLoop_in_run s e Hg He) as (L1 & L2 & _).
  destruct (dispatch_sameRun s e) as (_ & R2 & _ & R4 & _ & _ & _ & _ & R9).
  unfold early. rewrite L1, L2, R2, R4, R9. exact H'.
Qed.

Lemma fresh_early (s : State) :
  gameStarted s = false \/ gameOver s = true -> early (dispatch s StartGame).
Proof.
  intro H. rewrite (restart_fresh s H). unfold early.
  cbn [frameCount score lastObstacleFrame obstacles gameOver].
  split; [lia|]. split; [reflexivity|]. split; [left; reflexivity|].
  split; [reflexivity|]. split; [constructor|discriminate].
Qed.

Lemma ui_inRun (s : State) (i : input) : inRun s -> inRun (ui s i).
Proof.
  intro H. destruct (ui_cases s i) as [E|(e & E & Hst)]; rewrite E; [exact H|].
  destruct (isStart e) eqn:He.
  - destruct e; try discriminate. intros _. apply fresh_early, Hst. reflexivity.
  - destruct (gameStarted s) eqn:Hg.
    + intros _. apply dispatch_early; [exact Hg|exact He|apply H; exact Hg].
    + destruct (gameOver s) eqn:Ho.
      * rewrite (dispatch_over s e Ho He). intro Hg'. congruence.
      * unfold dispatch. rewrite (handle_idle s e Hg Ho).
        destruct e; try discriminate;
          try (rewrite effects_refl; intro Hg'; congruence).
        fold (handle s StartGame). fold (dispatch s StartGame).
        intros _. apply fresh_early. left. exact Hg.
Qed.

Lemma session_inRun (inputs : list input) (s : State) :
  inRun s -> inRun (session s inputs).
Proof.
  revert s. induction inputs as [|i inputs IH]; intros s H; [exact H|].
  cbn [session fold_left]. apply IH, ui_inRun, H.
Qed.

(** X17.  No run ends before its 223rd tick.  Whatever the player does
    with keys and buttons and whatever the random draws, an obstacle
    cannot reach the player's box during the first 222 ticks of a run:
    whenever the game is over, the score is at least 223, so the
    threshold 100 of the new-high-score signal has been passed. *)
Theorem earliest_game_over (stored : option string) (inputs : list input) :
  let s := session (mount stored) inputs in
  gameOver s = true -> gameStarted s = true ->
  (223 <= score s)%Z /\ (100 < score s)%Z.
Proof.
  intros s Ho Hg.
  assert (H : inRun s).
  { apply session_inRun. intro Hm.
    destruct (mount_sameRun stored) as (H1 & _). rewrite H1 in Hm. discriminate. }
  destruct (H Hg) as (_ & Hs & _ & _ & _ & Hov).
  specialize (Hov Ho). split; lia.
Qed.

Lemma earliest_game_over_witness :
  (223 <= score (session (mount None) (ClickStart :: repeat (Tick 0.6) 223)))%Z.
Proof.
  apply (earliest_game_over None (ClickStart :: repeat (Tick 0.6) 223));
    vm_compute; reflexivity.
Defined.
